(** * parkrun-parser: a shallow embedding of the scraper, the store and the reports

    The Go program is translated function by function:
    - [parser.go]: [timeToSeconds], [scrapeEvent] (row extraction);
    - [db.go]: [StoreEvent], [StoreResults], [GetNextEventNumber],
      [ClearLocationData] over an explicit model of the SQLite tables;
    - [main.go]: one iteration of the ingest loop of [parseAndStoreResults];
    - [reports.go] (two copies in the repository): [GetTopParticipants],
      [GetMedianTimesByAgeCategory], the runner count of [GetLocationStats],
      and the category grouping of [PrintReports] / [PrintComparisonReport].

    Go's [int] is the 64-bit signed integer; it is modelled as [Z] with the
    wrap-around of every arithmetic operation written out. *)

From Stdlib Require Import ZArith Ascii String.
From Stdlib Require Import DecimalString DecimalZ.
From stdpp Require Import base list strings sorting gmap.

Local Open Scope Z_scope.

(** ** Go runtime helpers *)

Definition int_min : Z := - 2 ^ 63.
Definition int_max : Z := 2 ^ 63 - 1.
Definition max_uint64 : Z := 2 ^ 64 - 1.

(** Two's complement wrap-around of a Go [int] operation. *)
Definition wrap64 (z : Z) : Z :=
  let m := z mod 2 ^ 64 in
  if m >=? 2 ^ 63 then m - 2 ^ 64 else m.

Definition in_int_range (z : Z) : Prop := int_min <= z <= int_max.

(** Go's [byte(c) - '0'], then the test [> 9]: a decimal digit or nothing. *)
Definition dec_digit (c : ascii) : option Z :=
  let d := (Z.of_nat (nat_of_ascii c) - 48) mod 256 in
  if d >? 9 then None else Some d.

(** ** strconv.Atoi *)

Inductive NumError := ErrSyntax | ErrRange.

(** Fast path loop of [Atoi]: [n = n*10 + int(ch)]. *)
Fixpoint atoi_fast_loop (n : Z) (s : list ascii) : option Z :=
  match s with
  | [] => Some n
  | c :: s' =>
      match dec_digit c with
      | None => None
      | Some d => atoi_fast_loop (n * 10 + d) s'
      end
  end.

(** [ParseUint(s, 10, 64)]'s digit loop, with its overflow checks; [n] is
    an unsigned 64-bit accumulator. *)
Definition uint_cutoff : Z := max_uint64 / 10 + 1.

Fixpoint parse_uint_loop (n : Z) (s : list ascii) : Z * option NumError :=
  match s with
  | [] => (n, None)
  | c :: s' =>
      match dec_digit c with
      | None => (0, Some ErrSyntax)
      | Some d =>
          if n >=? uint_cutoff then (max_uint64, Some ErrRange)
          else
            let n1 := n * 10 + d in
            if n1 >? max_uint64 then (max_uint64, Some ErrRange)
            else parse_uint_loop n1 s'
      end
  end.

Definition ParseUint (s : list ascii) : Z * option NumError :=
  match s with
  | [] => (0, Some ErrSyntax)
  | _ => parse_uint_loop 0 s
  end.

(** [ParseInt(s, 10, 0)] on a 64-bit platform: the sign is stripped, the
    rest goes to [ParseUint], and the result is checked against the int64
    cutoff. *)
Definition ParseInt_signed (neg : bool) (s : list ascii) : Z * option NumError :=
  match ParseUint s with
  | (_, Some ErrSyntax) => (0, Some ErrSyntax)
  | (un, err) =>
      let cutoff := 2 ^ 63 in
      if negb neg && (un >=? cutoff) then (cutoff - 1, Some ErrRange)
      else if neg && (un >? cutoff) then (- cutoff, Some ErrRange)
      else match err with
           | Some e => ((if neg then - un else un), Some e)
           | None => ((if neg then - un else un), None)
           end
  end.

Definition ParseInt (s0 : list ascii) : Z * option NumError :=
  match s0 with
  | [] => (0, Some ErrSyntax)
  | c :: rest =>
      if Ascii.eqb c "+" then ParseInt_signed false rest
      else if Ascii.eqb c "-" then ParseInt_signed true rest
      else ParseInt_signed false s0
  end.

(** [strconv.Atoi]: the fast path for strings of 1 to 18 bytes, otherwise
    [ParseInt]. Like Go, it returns a value together with the error. *)
Definition Atoi (str : string) : Z * option NumError :=
  let s0 := list_ascii_of_string str in
  let sLen := length s0 in
  if (0 <? sLen)%nat && (sLen <? 19)%nat then
    let s :=
      match s0 with
      | c :: rest => if Ascii.eqb c "-" || Ascii.eqb c "+" then rest else s0
      | [] => s0
      end in
    match s with
    | [] => (0, Some ErrSyntax)
    | _ =>
        match atoi_fast_loop 0 s with
        | None => (0, Some ErrSyntax)
        | Some n =>
            match s0 with
            | c :: _ => if Ascii.eqb c "-" then (- n, None) else (n, None)
            | [] => (n, None)
            end
        end
    end
  else ParseInt s0.

(** ** strings.Split with a one-byte separator *)

Fixpoint split_on (sep : ascii) (s : string) : list string :=
  match s with
  | EmptyString => [EmptyString]
  | String c s' =>
      if Ascii.eqb c sep then EmptyString :: split_on sep s'
      else match split_on sep s' with
           | [] => [String c EmptyString]
           | p :: ps => String c p :: ps
           end
  end.

(** ** timeToSeconds (parser.go) *)

Inductive TimeError :=
  | InvalidHours (e : NumError)
  | InvalidMinutes (e : NumError)
  | InvalidSeconds (e : NumError)
  | InvalidTimeFormat.

Inductive go_result (A E : Type) :=
  | Ok (a : A)
  | Err (e : E).
Arguments Ok {A E} a.
Arguments Err {A E} e.

Definition is_err {A E} (r : go_result A E) : bool :=
  match r with Ok _ => false | Err _ => true end.

Definition timeToSeconds (timeStr : string) : go_result Z TimeError :=
  if String.eqb timeStr "" || String.eqb timeStr "Unknown" then Ok 0
  else
    let parts := split_on ":" timeStr in
    match parts with
    | [p0; p1] =>
        match Atoi p0 with
        | (_, Some e) => Err (InvalidMinutes e)
        | (minutes, None) =>
            match Atoi p1 with
            | (_, Some e) => Err (InvalidSeconds e)
            | (seconds, None) => Ok (wrap64 (wrap64 (minutes * 60) + seconds))
            end
        end
    | [p0; p1; p2] =>
        match Atoi p0 with
        | (_, Some e) => Err (InvalidHours e)
        | (hours, None) =>
            match Atoi p1 with
            | (_, Some e) => Err (InvalidMinutes e)
            | (minutes, None) =>
                match Atoi p2 with
                | (_, Some e) => Err (InvalidSeconds e)
                | (seconds, None) =>
                    Ok (wrap64 (wrap64 (wrap64 (hours * 3600) + wrap64 (minutes * 60))
                                + seconds))
                end
            end
        end
    | _ => Err InvalidTimeFormat
    end.

(** Decimal integer literals: an optional sign
    followed by at least one decimal digit. *)
Definition is_dec_digit (c : ascii) : bool :=
  (48 <=? nat_of_ascii c)%nat && (nat_of_ascii c <=? 57)%nat.
Definition digit_value (c : ascii) : Z := Z.of_nat (nat_of_ascii c) - 48.
Definition decimal_value (n : Z) (cs : list ascii) : Z :=
  fold_left (fun a c => a * 10 + digit_value c) cs n.
Definition decimal_digits (cs : list ascii) : option Z :=
  match cs with
  | [] => None
  | _ => if forallb is_dec_digit cs then Some (decimal_value 0 cs) else None
  end.
Definition int_literal_chars (cs : list ascii) : option Z :=
  match cs with
  | [] => None
  | c :: rest =>
      if Ascii.eqb c "+" then decimal_digits rest
      else if Ascii.eqb c "-" then option_map Z.opp (decimal_digits rest)
      else decimal_digits (c :: rest)
  end.
Definition int_literal (s : string) : option Z :=
  int_literal_chars (list_ascii_of_string s).

(** ** Row extraction of scrapeEvent (parser.go) *)

(** Go's [strings.TrimSpace] on UTF-8 bytes: leading and trailing runes with
    [unicode.IsSpace] are removed. The white-space runes, UTF-8 encoded. *)
Definition ascii_list_of_bytes (l : list Z) : list ascii :=
  map (fun z => ascii_of_nat (Z.to_nat z)) l.

Definition space_encodings : list (list ascii) :=
  map ascii_list_of_bytes
    ([[9]; [10]; [11]; [12]; [13]; [32];
      [194; 133]; [194; 160];
      [225; 154; 128];
      [226; 128; 168]; [226; 128; 169]; [226; 128; 175];
      [226; 129; 159]; [227; 128; 128]] ++
     map (fun k => [226; 128; 128 + k]) (seqZ 0 11)).

Definition list_ascii_eqb (a b : list ascii) : bool :=
  bool_decide (a = b).

Fixpoint strip_prefix_of (cs : list ascii) (pats : list (list ascii))
  : option (list ascii) :=
  match pats with
  | [] => None
  | p :: ps =>
      if list_ascii_eqb (firstn (length p) cs) p then Some (skipn (length p) cs)
      else strip_prefix_of cs ps
  end.

Fixpoint trim_left_spaces (fuel : nat) (pats : list (list ascii)) (cs : list ascii)
  : list ascii :=
  match fuel with
  | O => cs
  | S fuel' =>
      match strip_prefix_of cs pats with
      | Some cs' => trim_left_spaces fuel' pats cs'
      | None => cs
      end
  end.

Definition TrimSpace (s : string) : string :=
  let cs := list_ascii_of_string s in
  let left := trim_left_spaces (length cs) space_encodings cs in
  let right := rev (trim_left_spaces (length left) (map (@rev ascii) space_encodings)
                                     (rev left)) in
  string_of_list_ascii right.

(** [strings.Contains]. *)
Fixpoint Contains (s substr : string) : bool :=
  String.prefix substr s ||
  match s with
  | EmptyString => false
  | String _ s' => Contains s' substr
  end.

(** The markup of one [.Results-table-row], as the extractor reads it: the
    data attributes (absent or present), the text of the compact time cell and
    of the first [.detailed] node. *)
Record html_row := {
  data_position : option string;
  data_name : option string;
  data_agegroup : option string;
  data_agegrade : option string;
  data_achievement : option string;
  time_compact_text : string;
  detailed_text : string
}.

Definition AttrOr (a : option string) (dflt : string) : string :=
  match a with Some v => v | None => dflt end.

Record Result := {
  Position : Z;
  Name : string;
  Time : string;
  TimeSeconds : Z;
  AgeGrade : string;
  AgeCategory : string;
  Note : string;
  TotalRuns : Z;
  EventID : Z
}.

(** The fields read from a row; [position, _ := strconv.Atoi(...)] keeps
    Atoi's value even when it reports an error. *)
Definition row_total_runs (s : html_row) : Z :=
  let runsText := detailed_text s in
  if Contains runsText "parkrun" then
    let runsStr := match split_on " " runsText with p :: _ => p | [] => "" end in
    fst (Atoi runsStr)
  else 0.

Definition row_result (s : html_row) (timeSeconds : Z) : Result := {|
  Position := fst (Atoi (AttrOr (data_position s) "0"));
  Name := AttrOr (data_name s) "";
  Time := TrimSpace (time_compact_text s);
  TimeSeconds := timeSeconds;
  AgeGrade := AttrOr (data_agegrade s) "";
  AgeCategory := AttrOr (data_agegroup s) "";
  Note := AttrOr (data_achievement s) "";
  TotalRuns := row_total_runs s;
  EventID := 0
|}.

(** The time check of the row callback: [None] when the row is skipped. *)
Definition row_time_seconds (s : html_row) : option Z :=
  if negb (String.eqb (AttrOr (data_name s) "") "Unknown") then
    match timeToSeconds (TrimSpace (time_compact_text s)) with
    | Err _ => None
    | Ok t => Some t
    end
  else Some 0.

(** One call of the [resultRows.Each] callback on (results, processedRows,
    skippedRows). The counters stay far below the int range (one step per
    row), so they are kept in [Z] without wrap-around. *)
Definition scrape_row_step (acc : list Result * Z * Z) (s : html_row)
  : list Result * Z * Z :=
  let '(results, processedRows, skippedRows) := acc in
  match row_time_seconds s with
  | None => (results, processedRows, skippedRows + 1)
  | Some timeSeconds =>
      (results ++ [row_result s timeSeconds], processedRows + 1, skippedRows)
  end.

Definition scrapeRows (rows : list html_row) : list Result * Z * Z :=
  fold_left scrape_row_step rows ([], 0, 0).

(** A row the extractor keeps. *)
Definition row_kept (s : html_row) : bool := bool_decide (is_Some (row_time_seconds s)).

(** ** The SQLite store (db.go)

    The three tables of [CreateTables], row by row. Nullable columns are
    [option]s. Every table has an [INTEGER PRIMARY KEY AUTOINCREMENT] id: a new
    row gets one more than the larger of the table's sequence counter and its
    largest id, and the counter moves to it. Foreign keys are not enforced
    (the connection string does not enable them). *)

Record location_row := {
  loc_id : Z;
  loc_slug : string;
  loc_name : option string;
  loc_country : string
}.

Record event_row := {
  ev_id : Z;
  ev_event_number : Z;
  ev_location_id : Z;
  ev_date : string;
  ev_url : string
}.

Record result_row := {
  r_id : Z;
  r_position : Z;
  r_name : string;
  r_time_seconds : option Z;
  r_age_grade : option string;
  r_age_category : option string;
  r_note : option string;
  r_total_runs : option Z;
  r_event_id : option Z
}.

Record db := {
  locations : list location_row;
  events : list event_row;
  results : list result_row;
  seq_events : Z;
  seq_results : Z
}.

Definition empty_db : db := {|
  locations := []; events := []; results := []; seq_events := 0; seq_results := 0 |}.

Definition next_rowid (seq : Z) (ids : list Z) : Z :=
  fold_left Z.max ids seq + 1.

(** The [Event] struct of parser.go; [Date] is the text the driver stores
    for the [time.Time]. *)
Record Event := {
  EventNumber : Z;
  LocationID : Z;
  Date : string;
  URL : string
}.

(** [INSERT OR REPLACE INTO events (event_number, location_id, date, url)]:
    the row violating [UNIQUE(event_number, location_id)] is deleted, and the
    new row is inserted with a fresh id; [LastInsertId] returns that id. *)
Definition StoreEvent (d : db) (event : Event) : db * Z :=
  let id := next_rowid (seq_events d) (map ev_id (events d)) in
  let kept := List.filter (fun e => negb ((ev_event_number e =? EventNumber event) &&
                                         (ev_location_id e =? LocationID event)))
                          (events d) in
  let row := {| ev_id := id; ev_event_number := EventNumber event;
                ev_location_id := LocationID event; ev_date := Date event;
                ev_url := URL event |} in
  ({| locations := locations d; events := kept ++ [row]; results := results d;
      seq_events := id; seq_results := seq_results d |}, id).

Definition opt_Z_eqb (a b : option Z) : bool :=
  match a, b with
  | Some x, Some y => x =? y
  | _, _ => false   (* NULL never equals anything in SQL *)
  end.

(** One [INSERT OR REPLACE INTO results (...)] of [StoreResults]; a zero time
    is stored as NULL. The [UNIQUE(position, event_id)] conflict deletes the
    old row. *)
Definition store_result (eventID : Z) (d : db) (result : Result) : db :=
  let timeSeconds := if TimeSeconds result >? 0 then Some (TimeSeconds result) else None in
  let id := next_rowid (seq_results d) (map r_id (results d)) in
  let kept := List.filter (fun r => negb ((r_position r =? Position result) &&
                                          opt_Z_eqb (r_event_id r) (Some eventID)))
                          (results d) in
  let row := {| r_id := id; r_position := Position result; r_name := Name result;
                r_time_seconds := timeSeconds; r_age_grade := Some (AgeGrade result);
                r_age_category := Some (AgeCategory result); r_note := Some (Note result);
                r_total_runs := Some (TotalRuns result); r_event_id := Some eventID |} in
  {| locations := locations d; events := events d; results := kept ++ [row];
     seq_events := seq_events d; seq_results := id |}.

Definition StoreResults (d : db) (rs : list Result) (eventID : Z) : db :=
  fold_left (store_result eventID) rs d.

(** [SELECT COALESCE(MAX(event_number), 0) FROM events WHERE location_id = ?],
    then [eventID + 1]. *)
Definition max_event_step (locationID : Z) (acc : option Z) (e : event_row) : option Z :=
  if ev_location_id e =? locationID then
    match acc with
    | None => Some (ev_event_number e)
    | Some m => Some (Z.max m (ev_event_number e))
    end
  else acc.

Definition max_event_number (d : db) (locationID : Z) : option Z :=
  fold_left (max_event_step locationID) (events d) None.

Definition GetNextEventNumber (d : db) (locationID : Z) : Z :=
  let eventID := match max_event_number d locationID with
                 | Some m => m
                 | None => 0
                 end in
  wrap64 (eventID + 1).

(** A segment that is a non-negative integer written in decimal digits,
    with its value. *)
Definition nonneg_int_segment (seg : string) (n : Z) : Prop :=
  decimal_digits (list_ascii_of_string seg) = Some n.

(** Segments without the separator, for [strings.Split]. *)

Definition no_sep (sep : ascii) (s : string) : bool :=
  forallb (fun c => negb (Ascii.eqb c sep)) (list_ascii_of_string s).

(** A segment [strconv.Atoi] accepts: an optionally signed decimal integer
    within the range of Go's [int]. *)
Definition atoi_segment (p : string) : Prop :=
  exists v, int_literal p = Some v /\ in_int_range v.

Definition row_position_zero : html_row := {|
  data_position := Some "0"; data_name := Some "Runner A";
  data_agegroup := Some "SM25-29"; data_agegrade := None; data_achievement := None;
  time_compact_text := "20:00"; detailed_text := "" |}.

Definition row_position_missing : html_row := {|
  data_position := None; data_name := Some "Unknown";
  data_agegroup := None; data_agegrade := None; data_achievement := None;
  time_compact_text := ""; detailed_text := "" |}.

(** One ingest of an event by [parseAndStoreResults]: [StoreEvent], then
    [StoreResults] under the id it returned. *)
Definition ingest_event (d : db) (event : Event) (rs : list Result) : db :=
  let '(d1, eventID) := StoreEvent d event in
  StoreResults d1 rs eventID.

Definition sample_event (n : Z) : Event := {|
  EventNumber := n; LocationID := 1; Date := "2024-01-06T00:00:00Z";
  URL := "https://www.parkrun.com.au/sample/results/" |}.

Definition sample_result : Result := {|
  Position := 1; Name := "Runner A"; Time := "20:00"; TimeSeconds := 1200;
  AgeGrade := "60.00%"; AgeCategory := "SM25-29"; Note := "PB"; TotalRuns := 10;
  EventID := 0 |}.

(** The event stored once from an empty database, and the same event with
    the same rows stored a second time. *)
Definition stored_once : db := ingest_event empty_db (sample_event 1) [sample_result].
Definition stored_twice : db := ingest_event stored_once (sample_event 1) [sample_result].

(** Events 1 and 2 of location 1 stored in an empty database. *)
Definition events_1_2 : db :=
  fst (StoreEvent (fst (StoreEvent empty_db (sample_event 1))) (sample_event 2)).

(** ** ClearLocationData

    Which of its database calls fail is not decided by the code: a
    [clear_faults] value says, for each call, whether it returns an error. A
    failed statement changes nothing (SQLite statements are atomic); the
    transaction works on its own copy of the tables, [tx.Rollback] drops it and
    [tx.Commit] installs it. A failed [COMMIT] is rolled back by the driver
    (go-sqlite3's [SQLiteTx.Commit]), so it installs nothing. *)

Record clear_faults := {
  fail_find_location : bool;
  fail_begin : bool;
  fail_delete_results : bool;
  fail_delete_events : bool;
  fail_delete_location : bool;
  fail_commit : bool
}.

Inductive ClearError :=
| ErrFindingLocation
| ErrStartingTransaction
| ErrDeletingResults
| ErrDeletingEvents
| ErrDeletingLocation
| ErrCommittingTransaction.

(** [SELECT id FROM locations WHERE slug = ?] with [QueryRow]: the first
    matching row, or [sql.ErrNoRows]. *)
Definition find_location (d : db) (urlSlug : string) : option Z :=
  option_map loc_id (List.find (fun l => String.eqb (loc_slug l) urlSlug) (locations d)).

(** [DELETE FROM results WHERE event_id IN (SELECT id FROM events WHERE
    location_id = ?)]; a NULL [event_id] is never [IN] a list. *)
Definition delete_location_results (locationID : Z) (t : db) : db :=
  let ids := map ev_id (List.filter (fun e => ev_location_id e =? locationID) (events t)) in
  {| locations := locations t; events := events t;
     results := List.filter (fun r => match r_event_id r with
                                      | Some x => negb (existsb (Z.eqb x) ids)
                                      | None => true
                                      end) (results t);
     seq_events := seq_events t; seq_results := seq_results t |}.

(** [DELETE FROM events WHERE location_id = ?] *)
Definition delete_location_events (locationID : Z) (t : db) : db :=
  {| locations := locations t;
     events := List.filter (fun e => negb (ev_location_id e =? locationID)) (events t);
     results := results t; seq_events := seq_events t; seq_results := seq_results t |}.

(** [DELETE FROM locations WHERE id = ?] *)
Definition delete_location_row (locationID : Z) (t : db) : db :=
  {| locations := List.filter (fun l => negb (loc_id l =? locationID)) (locations t);
     events := events t; results := results t;
     seq_events := seq_events t; seq_results := seq_results t |}.

Definition ClearLocationData (f : clear_faults) (d : db) (urlSlug : string)
  : go_result unit ClearError * db :=
  if fail_find_location f then (Err ErrFindingLocation, d) else
  match find_location d urlSlug with
  | None => (Ok tt, d)
  | Some locationID =>
      if fail_begin f then (Err ErrStartingTransaction, d) else
      let tx := d in
      if fail_delete_results f then (Err ErrDeletingResults, d) else
      let tx := delete_location_results locationID tx in
      if fail_delete_events f then (Err ErrDeletingEvents, d) else
      let tx := delete_location_events locationID tx in
      if fail_delete_location f then (Err ErrDeletingLocation, d) else
      let tx := delete_location_row locationID tx in
      if fail_commit f then (Err ErrCommittingTransaction, d) else
      (Ok tt, tx)
  end.

Definition no_faults : clear_faults := {|
  fail_find_location := false; fail_begin := false; fail_delete_results := false;
  fail_delete_events := false; fail_delete_location := false; fail_commit := false |}.

(** ** Reports (reports.go)

    Both copies of reports.go in the repository share [GetTopParticipants],
    [GetLocationStats] and [secondsToTime]; they differ in the median line of
    [GetMedianTimesByAgeCategory] (modules [ReportsV1] and [ReportsV2]), and
    only the second has [PrintComparisonReport]. *)

(** [FROM results r JOIN events e ON r.event_id = e.id WHERE e.location_id = ?]:
    every result row once per event row it joins. *)
Definition joined_results (d : db) (locationID : Z) : list result_row :=
  flat_map (fun r =>
    flat_map (fun e =>
      if opt_Z_eqb (r_event_id r) (Some (ev_id e)) && (ev_location_id e =? locationID)
      then [r] else []) (events d)) (results d).

(** The two columns [GetTopParticipants] scans into a [RunnerStat]. *)
Module RunnerStat.
Record t := {
  Name : string;
  TotalRuns : Z
}.
End RunnerStat.

(** [GROUP BY r.name]: each name with its row count. *)
Definition name_counts (names : list string) : list (string * Z) :=
  map (fun n => (n, Z.of_nat (length (List.filter (String.eqb n) names)))) (remove_dups names).

Definition run_count_ge (a b : string * Z) : Prop := b.2 <= a.2.
#[global] Instance run_count_ge_dec : RelDecision run_count_ge :=
  fun a b => decide (b.2 <= a.2).

(** [LIMIT ?]: a negative limit means no limit in SQLite. *)
Definition sql_limit {A} (limit : Z) (l : list A) : list A :=
  if limit <? 0 then l else take (Z.to_nat limit) l.

(** [SELECT r.name, COUNT( * ) ... AND r.name != 'Unknown' GROUP BY r.name
    ORDER BY run_count DESC LIMIT ?]; rows of equal count come in an order
    SQLite does not fix, here the order of first appearance. *)
Definition GetTopParticipants (d : db) (locationID limit : Z) : list RunnerStat.t :=
  let names := map r_name (List.filter (fun r => negb (String.eqb (r_name r) "Unknown"))
                                       (joined_results d locationID)) in
  map (fun p => {| RunnerStat.Name := p.1; RunnerStat.TotalRuns := p.2 |})
      (sql_limit limit (merge_sort run_count_ge (name_counts names))).

(** [stats["total_runners"]] of [GetLocationStats]:
    [SELECT COUNT(DISTINCT name) FROM results r JOIN events e ... WHERE
    e.location_id = ?]. *)
Definition total_runners (d : db) (locationID : Z) : Z :=
  Z.of_nat (length (remove_dups (map r_name (joined_results d locationID)))).

(** Go's [%d] and [%02d] of an [int]. *)
Definition fmt_d (z : Z) : string := NilZero.string_of_int (Z.to_int z).
Definition fmt_02d (z : Z) : string :=
  if (0 <=? z) && (z <? 10) then ("0" ++ fmt_d z)%string else fmt_d z.

(** Go's [/] and [%] on [int] truncate toward zero: [Z.quot], [Z.rem]. *)
Definition secondsToTime (seconds : Z) : string :=
  if seconds =? 0 then "Unknown" else
  let hours := Z.quot seconds 3600 in
  let minutes := Z.quot (Z.rem seconds 3600) 60 in
  let secs := Z.rem seconds 60 in
  if hours >? 0 then (fmt_d hours ++ ":" ++ fmt_02d minutes ++ ":" ++ fmt_02d secs)%string
  else (fmt_d minutes ++ ":" ++ fmt_02d secs)%string.

Record TimeStats := {
  Category : string;
  Median : string;
  Count : Z
}.

(** The [WHERE ... AND time_seconds > 0 AND age_category != ''] filter on one
    joined row; a NULL column fails the comparison. *)
Definition median_row (r : result_row) : list (string * Z) :=
  match r_age_category r, r_time_seconds r with
  | Some c, Some t => if (t >? 0) && negb (String.eqb c "") then [(c, t)] else []
  | _, _ => []
  end.

Definition category_le (a b : string * Z) : Prop := String.leb a.1 b.1 = true.
#[global] Instance category_le_dec : RelDecision category_le :=
  fun a b => decide (String.leb a.1 b.1 = true).

(** The rows of [SELECT age_category, time_seconds ... ORDER BY age_category]. *)
Definition median_rows (d : db) (locationID : Z) : list (string * Z) :=
  merge_sort category_le (flat_map median_row (joined_results d locationID)).

(** [categoryTimes[category] = append(categoryTimes[category], timeSeconds)]
    over the rows, into a [map[string][]int]. *)
Definition append_time (m : gmap string (list Z)) (p : string * Z) : gmap string (list Z) :=
  <[p.1 := default [] (m !! p.1) ++ [p.2]]> m.

Definition group_times (rows : list (string * Z)) : gmap string (list Z) :=
  fold_left append_time rows ∅.

Definition stats_le (a b : TimeStats) : Prop := String.leb (Category a) (Category b) = true.
#[global] Instance stats_le_dec : RelDecision stats_le :=
  fun a b => decide (String.leb (Category a) (Category b) = true).

(** The body of [GetMedianTimesByAgeCategory] after the query: for each
    category of the map, [sort.Ints(times)], the median, a [TimeStats]; then
    [sort.Slice] by category. The two copies of the function differ only in
    how [median] is computed from the sorted times. *)
Definition median_stats (median : list Z -> Z) (d : db) (locationID : Z) : list TimeStats :=
  merge_sort stats_le
    (map (fun p => let times := merge_sort Z.le p.2 in
                   {| Category := p.1; Median := secondsToTime (median times);
                      Count := Z.of_nat (length times) |})
         (map_to_list (group_times (median_rows d locationID)))).

(** The first copy of reports.go. *)
Module ReportsV1.

(** [median := times[len(times)/2]] *)
Definition median (times : list Z) : Z := nth (length times / 2) times 0.

Definition GetMedianTimesByAgeCategory (d : db) (locationID : Z) : list TimeStats :=
  median_stats median d locationID.

End ReportsV1.

(** The second copy of reports.go. *)
Module ReportsV2.

(** [if n%2 == 0 && n > 0 { median = (times[n/2-1] + times[n/2]) / 2 }
    else if n > 0 { median = times[n/2] }] *)
Definition median (times : list Z) : Z :=
  let n := length times in
  if (n mod 2 =? 0)%nat && (0 <? n)%nat then
    Z.quot (wrap64 (nth (n / 2 - 1) times 0 + nth (n / 2) times 0)) 2
  else if (0 <? n)%nat then nth (n / 2) times 0
  else 0.

Definition GetMedianTimesByAgeCategory (d : db) (locationID : Z) : list TimeStats :=
  median_stats median d locationID.

(** Go's [s[:2]]: a panic (here [None]) when [s] has fewer than two bytes. *)
Definition prefix2 (s : string) : option string :=
  if (2 <=? String.length s)%nat then Some (String.substring 0 2 s) else None.

Definition report_group (prefix : string) : string :=
  if String.eqb prefix "JM" || String.eqb prefix "JW" then "Juniors"
  else if String.eqb prefix "SM" || String.eqb prefix "VM" then "Men"
  else if String.eqb prefix "SW" || String.eqb prefix "VW" then "Women"
  else "Other".

(** The grouping loop of [PrintReports] over the [TimeStats]: the group each
    stat is appended to, in order, or [None] when [stat.Category[:2]]
    panics. *)
Fixpoint group_stats (times : list TimeStats) : option (list (string * TimeStats)) :=
  match times with
  | [] => Some []
  | stat :: rest =>
      match prefix2 (Category stat) with
      | None => None
      | Some prefix => option_map (cons (report_group prefix, stat)) (group_stats rest)
      end
  end.

Definition PrintReports_grouping (d : db) (locationID : Z)
  : option (list (string * TimeStats)) :=
  group_stats (GetMedianTimesByAgeCategory d locationID).

Definition string_le (a b : string) : Prop := String.leb a b = true.
#[global] Instance string_le_dec : RelDecision string_le :=
  fun a b => decide (String.leb a b = true).

(** The [for cat := range categories] loop of [PrintComparisonReport]:
    juniors, males, females and others, or [None] when [cat[:2]] panics. *)
Fixpoint classify_categories (cats : list string)
  : option (list string * list string * list string * list string) :=
  match cats with
  | [] => Some ([], [], [], [])
  | cat :: rest =>
      match prefix2 cat with
      | None => None
      | Some prefix =>
          option_map (fun '(juniors, males, females, others) =>
            if String.eqb prefix "JM" || String.eqb prefix "JW" then
              (cat :: juniors, males, females, others)
            else if String.eqb prefix "SM" || String.eqb prefix "VM" then
              (juniors, cat :: males, females, others)
            else if String.eqb prefix "SW" || String.eqb prefix "VW" then
              (juniors, males, cat :: females, others)
            else (juniors, males, females, cat :: others)) (classify_categories rest)
      end
  end.

(** The category grouping of [PrintComparisonReport] for two locations: the
    set of categories of both median lists, classified, each group sorted
    with [sort.Strings]. *)
Definition PrintComparisonReport_grouping (d : db) (locationID1 locationID2 : Z)
  : option (list string * list string * list string * list string) :=
  let times1 := GetMedianTimesByAgeCategory d locationID1 in
  let times2 := GetMedianTimesByAgeCategory d locationID2 in
  let categories := remove_dups (map Category times1 ++ map Category times2) in
  option_map (fun '(juniors, males, females, others) =>
                (merge_sort string_le juniors, merge_sort string_le males,
                 merge_sort string_le females, merge_sort string_le others))
             (classify_categories categories).

End ReportsV2.

(** The positive times stored for category [c] at a location: what the
    median of [c] should be computed from. *)
Definition category_times (d : db) (locationID : Z) (c : string) : list Z :=
  flat_map (fun r => match r_age_category r, r_time_seconds r with
                     | Some c', Some t => if String.eqb c' c && (t >? 0) then [t] else []
                     | _, _ => []
                     end) (joined_results d locationID).

(** Some result of the location has a positive time and a one-byte age
    category. *)
Definition has_timed_one_char_category (d : db) (locationID : Z) : Prop :=
  exists r c t, In r (joined_results d locationID) /\ r_age_category r = Some c /\
                r_time_seconds r = Some t /\ 0 < t /\ String.length c = 1%nat.

(** The fixture [insertTestData] of the store tests: two locations, three
    events, five results. *)
Definition fixture_location (id : Z) (slug : string) : location_row := {|
  loc_id := id; loc_slug := slug; loc_name := None; loc_country := "AUS" |}.

Definition fixture_event (id number locationID : Z) (date : string) : event_row := {|
  ev_id := id; ev_event_number := number; ev_location_id := locationID;
  ev_date := date; ev_url := "http://example.com/" |}.

Definition fixture_result (id position : Z) (name : string) (time : option Z)
    (category : option string) (eventID : Z) : result_row := {|
  r_id := id; r_position := position; r_name := name; r_time_seconds := time;
  r_age_grade := None; r_age_category := category; r_note := None;
  r_total_runs := None; r_event_id := Some eventID |}.

Definition fixture_db : db := {|
  locations := [fixture_location 1 "test-park-1"; fixture_location 2 "test-park-2"];
  events := [fixture_event 1 1 1 "2023-01-01"; fixture_event 2 2 1 "2023-01-08";
             fixture_event 3 1 2 "2023-01-01"];
  results := [fixture_result 1 1 "Runner A" (Some 1200) (Some "VM35-39") 1;
              fixture_result 2 2 "Runner B" (Some 1500) (Some "VM40-44") 1;
              fixture_result 3 3 "Runner A" (Some 1180) (Some "VM35-39") 2;
              fixture_result 4 4 "Runner D" (Some 1190) (Some "VM35-39") 2;
              fixture_result 5 1 "Runner C" (Some 1300) (Some "VW35-39") 3];
  seq_events := 3; seq_results := 5 |}.

(** A database with one event at location 1 and two results of category
    [cat] with the given times. *)
Definition two_results_db (name1 name2 cat : string) (t1 t2 : option Z) : db := {|
  locations := [fixture_location 1 "test-park-1"];
  events := [fixture_event 1 1 1 "2023-01-01"];
  results := [fixture_result 1 1 name1 t1 (Some cat) 1;
              fixture_result 2 2 name2 t2 (Some cat) 1];
  seq_events := 1; seq_results := 2 |}.

(** The statistic the second copy reports for two times 1180 and 1190 of
    category VM35-39. *)
Definition even_stat : TimeStats := {| Category := "VM35-39"; Median := "19:45"; Count := 2 |}.

(** ** The ingest loop (main.go)

    One iteration of the [for] loop of [parseAndStoreResults]. What
    [ParseResults] returns and whether [StoreEvent] fails are the
    environment's: they are the step's inputs. Only [*HTTPError] values carry
    a status code; every other error of [ParseResults] is [FetchOtherError]. *)

Inductive fetch_outcome :=
| FetchOk
| FetchHTTPError (StatusCode : Z)
| FetchOtherError.

Record loop_state := {
  eventID : Z;
  consecutiveErrors : Z
}.

(** What the iteration ends with: the next iteration after sleeping the given
    number of seconds ([continue], or the end of the body), [return] after a
    425, or [break] after too many consecutive errors. *)
Inductive loop_action :=
| Continue (s : loop_state) (sleepSeconds : Z)
| ReturnExhausted
| BreakTooManyErrors (s : loop_state).

Definition waitBetweenRequests : Z := 5.
Definition rateLimitBackoff : Z := 180.
Definition maxConsecutiveErrors : Z := 3.

Definition fetch_error_step (s : loop_state) : loop_action :=
  let errors := wrap64 (consecutiveErrors s + 1) in
  let s' := {| eventID := eventID s; consecutiveErrors := errors |} in
  if errors >=? maxConsecutiveErrors then BreakTooManyErrors s'
  else Continue s' waitBetweenRequests.

Definition loop_step (s : loop_state) (fetched : fetch_outcome) (storeEventOk : bool)
  : loop_action :=
  match fetched with
  | FetchHTTPError code =>
      if code =? 405 then Continue s rateLimitBackoff
      else if code =? 425 then ReturnExhausted
      else fetch_error_step s
  | FetchOtherError => fetch_error_step s
  | FetchOk =>
      (* consecutiveErrors = 0, then StoreEvent *)
      if storeEventOk then
        Continue {| eventID := wrap64 (eventID s + 1); consecutiveErrors := 0 |}
                 waitBetweenRequests
      else Continue {| eventID := eventID s; consecutiveErrors := 0 |} 0
  end.

(** The older copy of the function (src/unnamed/part_002, named
    [getNextEventNumber]): [SELECT COALESCE(MAX(event_number), 1)], then
    [eventID + 1]. *)
Definition getNextEventNumber_v0 (d : db) (locationID : Z) : Z :=
  let eventID := match max_event_number d locationID with
                 | Some m => m
                 | None => 1
                 end in
  wrap64 (eventID + 1).

(** One event of location 1 whose number is Go's largest [int]. *)
Definition last_int_event_db : db := {|
  locations := [fixture_location 1 "test-park-1"];
  events := [fixture_event 1 int_max 1 "2023-01-01"];
  results := []; seq_events := 1; seq_results := 0 |}.

(** The times of the rows of category [c], in row order. *)
Definition times_of (c : string) (rows : list (string * Z)) : list Z :=
  map snd (List.filter (fun p => String.eqb p.1 c) rows).

(** The [UNIQUE(position, event_id)] keys of the results rows; rows with a
    NULL [event_id] have none (NULLs are distinct in a UNIQUE index). *)
Definition result_keys (d : db) : list (Z * Z) :=
  flat_map (fun r => match r_event_id r with
                     | Some e => [(r_position r, e)]
                     | None => []
                     end) (results d).

(** The [UNIQUE(event_number, location_id)] keys of the events rows. *)
Definition event_key (e : event_row) : Z * Z := (ev_event_number e, ev_location_id e).

(** An event to store at a location. *)
Definition sample_event_at (n locationID : Z) : Event := {|
  EventNumber := n; LocationID := locationID; Date := "2023-01-15"; URL := "http://example.com/" |}.

(** A scraped result at a position, with a name and a time in seconds. *)
Definition result_at (pos : Z) (name : string) (t : Z) : Result := {|
  Position := pos; Name := name; Time := secondsToTime t; TimeSeconds := t;
  AgeGrade := "50.00%"; AgeCategory := "SM25-29"; Note := ""; TotalRuns := 1;
  EventID := 0 |}.

(** ** parseEventDate (parser.go) over Go's [time.Parse]

    [time.Parse] is followed for the three layouts of [parseEventDate]. A
    layout is cut by [nextStdChunk] into literal prefixes and standard
    chunks: "02/01/2006" is [stdZeroDay] "/" [stdZeroMonth] "/"
    [stdLongYear], "2/1/06" is [stdDay] "/" [stdNumMonth] "/" [stdYear],
    "2/1/2006" is [stdDay] "/" [stdNumMonth] "/" [stdLongYear]. Strings are
    byte lists. *)

Inductive std_chunk := stdZeroDay | stdDay | stdZeroMonth | stdNumMonth | stdYear | stdLongYear.

Inductive layout_elem :=
| LayoutText (prefix : list ascii)
| LayoutStd (std : std_chunk).

Definition layout_DD_MM_YYYY : list layout_elem :=
  [LayoutStd stdZeroDay; LayoutText ["/"%char]; LayoutStd stdZeroMonth;
   LayoutText ["/"%char]; LayoutStd stdLongYear].
Definition layout_D_M_YY : list layout_elem :=
  [LayoutStd stdDay; LayoutText ["/"%char]; LayoutStd stdNumMonth;
   LayoutText ["/"%char]; LayoutStd stdYear].
Definition layout_D_M_YYYY : list layout_elem :=
  [LayoutStd stdDay; LayoutText ["/"%char]; LayoutStd stdNumMonth;
   LayoutText ["/"%char]; LayoutStd stdLongYear].

(** The errors of [time.Parse] on these layouts: a value that does not
    match the layout, text left over, a month or a day out of range. *)
Inductive ParseError := ErrBad | ErrExtraText | ErrMonthRange | ErrDayRange.

(** [isDigit(s, i)] at [i = 0]. *)
Definition isDigit0 (s : list ascii) : bool :=
  match s with c :: _ => is_dec_digit c | [] => false end.

(** [cutspace]: drop leading ASCII spaces. *)
Fixpoint cutspace (s : list ascii) : list ascii :=
  match s with
  | c :: s' => if Ascii.eqb c " " then cutspace s' else s
  | [] => []
  end.

(** [skip(value, prefix)]: the literal text of the layout; a space in the
    layout matches any run of spaces. The fuel is the length of the prefix. *)
Fixpoint skip_fuel (fuel : nat) (value prefix : list ascii) : option (list ascii) :=
  match fuel with
  | O => Some value
  | S fuel' =>
      match prefix with
      | [] => Some value
      | p :: prefix' =>
          if Ascii.eqb p " " then
            match value with
            | v :: _ => if negb (Ascii.eqb v " ") then None
                        else skip_fuel fuel' (cutspace value) (cutspace prefix')
            | [] => skip_fuel fuel' (cutspace value) (cutspace prefix')
            end
          else
            match value with
            | v :: value' => if Ascii.eqb v p then skip_fuel fuel' value' prefix' else None
            | [] => None
            end
      end
  end.

Definition skip (value prefix : list ascii) : option (list ascii) :=
  skip_fuel (length prefix) value prefix.

(** [getnum(s, fixed)]: one or two digits; [fixed] asks for two. *)
Definition getnum (s : list ascii) (fixed : bool) : option (Z * list ascii) :=
  match s with
  | c0 :: rest =>
      if negb (is_dec_digit c0) then None else
      match rest with
      | c1 :: rest' =>
          if is_dec_digit c1 then Some (digit_value c0 * 10 + digit_value c1, rest')
          else if fixed then None else Some (digit_value c0, rest)
      | [] => if fixed then None else Some (digit_value c0, rest)
      end
  | [] => None
  end.

(** [leadingInt]: the leading decimal digits as a [uint64], with its two
    overflow checks. *)
Fixpoint leadingInt_loop (x : Z) (s : list ascii) : option (Z * list ascii) :=
  match s with
  | c :: s' =>
      if negb (is_dec_digit c) then Some (x, s) else
      if x >? 2 ^ 63 / 10 then None else
      let x' := x * 10 + digit_value c in
      if x' >? 2 ^ 63 then None else leadingInt_loop x' s'
  | [] => Some (x, [])
  end.

(** The [atoi] of package time: an optional sign, then [leadingInt], with
    nothing left over. *)
Definition time_atoi (s : list ascii) : option Z :=
  let '(neg, s') := match s with
                    | c :: s' => if Ascii.eqb c "-" then (true, s')
                                 else if Ascii.eqb c "+" then (false, s')
                                 else (false, s)
                    | [] => (false, s)
                    end in
  match leadingInt_loop 0 s' with
  | Some (q, []) => let x := wrap64 q in Some (if neg then wrap64 (- x) else x)
  | _ => None
  end.

(** The fields [year], [month] and [day] of [parse], [month] and [day]
    starting at [-1]. *)
Record date_fields := { f_year : Z; f_month : Z; f_day : Z }.

(** One [switch std] case of [parse] on [value]. *)
Definition parse_std (std : std_chunk) (value : list ascii) (st : date_fields)
  : go_result (list ascii * date_fields) ParseError :=
  match std with
  | stdYear =>
      if (length value <? 2)%nat then Err ErrBad else
      match time_atoi (firstn 2 value) with
      | None => Err ErrBad
      | Some y =>
          let year := if y >=? 69 then y + 1900 else y + 2000 in
          Ok (skipn 2 value, {| f_year := year; f_month := f_month st; f_day := f_day st |})
      end
  | stdLongYear =>
      if (length value <? 4)%nat || negb (isDigit0 value) then Err ErrBad else
      match time_atoi (firstn 4 value) with
      | None => Err ErrBad
      | Some y => Ok (skipn 4 value, {| f_year := y; f_month := f_month st; f_day := f_day st |})
      end
  | stdNumMonth | stdZeroMonth =>
      match getnum value (match std with stdZeroMonth => true | _ => false end) with
      | None => Err ErrBad
      | Some (month, value') =>
          if (month <=? 0) || (12 <? month) then Err ErrMonthRange
          else Ok (value', {| f_year := f_year st; f_month := month; f_day := f_day st |})
      end
  | stdDay | stdZeroDay =>
      match getnum value (match std with stdZeroDay => true | _ => false end) with
      | None => Err ErrBad
      | Some (day, value') =>
          Ok (value', {| f_year := f_year st; f_month := f_month st; f_day := day |})
      end
  end.

(** The [for] loop of [parse]: skip each literal prefix, parse each
    chunk, and at the end of the layout require the value to be used up. *)
Fixpoint parse_chunks (layout : list layout_elem) (value : list ascii) (st : date_fields)
  : go_result date_fields ParseError :=
  match layout with
  | [] => match value with [] => Ok st | _ => Err ErrExtraText end
  | LayoutText prefix :: layout' =>
      match skip value prefix with
      | None => Err ErrBad
      | Some value' => parse_chunks layout' value' st
      end
  | LayoutStd std :: layout' =>
      match parse_std std value st with
      | Err e => Err e
      | Ok (value', st') => parse_chunks layout' value' st'
      end
  end.

(** [isLeap] and [daysIn] of package time. *)
Definition isLeap (year : Z) : bool :=
  (Z.rem year 4 =? 0) && (negb (Z.rem year 100 =? 0) || (Z.rem year 400 =? 0)).

Definition daysIn (m year : Z) : Z :=
  if m =? 2 then (if isLeap year then 29 else 28)
  else 30 + Z.land (m + Z.shiftr m 3) 1.

(** A [time.Time] at midnight UTC, as its calendar date. *)
Record civil_date := { Year : Z; Month : Z; Day : Z }.

(** The zero [time.Time]: January 1 of year 1. *)
Definition zero_time : civil_date := {| Year := 1; Month := 1; Day := 1 |}.

(** [time.Parse(layout, value)]: the loop, the defaults of [month] and [day],
    the day-of-month check, then [Date(year, month, day, ...)]. *)
Definition time_Parse (layout : list layout_elem) (value : list ascii)
  : go_result civil_date ParseError :=
  match parse_chunks layout value {| f_year := 0; f_month := -1; f_day := -1 |} with
  | Err e => Err e
  | Ok st =>
      let month := if f_month st <? 0 then 1 else f_month st in
      let day := if f_day st <? 0 then 1 else f_day st in
      if (day <? 1) || (day >? daysIn month (f_year st)) then Err ErrDayRange
      else Ok {| Year := f_year st; Month := month; Day := day |}
  end.

(** [parseEventDate]: trim, then try the formats in order; the first that
    parses wins, otherwise the last error is returned (with the zero time). *)
Definition parseEventDate (dateText : string) : go_result civil_date ParseError :=
  let value := list_ascii_of_string (TrimSpace dateText) in
  match time_Parse layout_DD_MM_YYYY value with
  | Ok d => Ok d
  | Err _ =>
      match time_Parse layout_D_M_YY value with
      | Ok d => Ok d
      | Err _ => time_Parse layout_D_M_YYYY value
      end
  end.

(** The date [scrapeEvent] puts in the [Event]: the parsed date, or the zero
    time when [parseEventDate] fails (the error is only logged). *)
Definition event_date (dateText : string) : civil_date :=
  match parseEventDate dateText with
  | Ok d => d
  | Err _ => zero_time
  end.

(** A byte sequence that starts with a byte other than a decimal digit. *)
Definition starts_non_digit (p : list ascii) : bool :=
  match p with h :: _ => negb (is_dec_digit h) | [] => false end.

(** The [for] loop of [parseAndStoreResults], run on a list of iteration
    outcomes (what [ParseResults] returns, whether [StoreEvent] succeeds):
    it stops at the first [return] or [break], and otherwise ends in the
    state after the last iteration. *)
Inductive loop_end :=
| LoopRunning (s : loop_state)
| LoopStopped (a : loop_action).

Fixpoint run_loop (s : loop_state) (inputs : list (fetch_outcome * bool)) : loop_end :=
  match inputs with
  | [] => LoopRunning s
  | (fetched, storeEventOk) :: rest =>
      match loop_step s fetched storeEventOk with
      | Continue s' _ => run_loop s' rest
      | a => LoopStopped a
      end
  end.

(** The iterations in which an event was fetched and stored. *)
Definition stored_events (inputs : list (fetch_outcome * bool)) : nat :=
  length (List.filter (fun p => match p with (FetchOk, true) => true | _ => false end) inputs).

(** The fetch errors that count toward [maxConsecutiveErrors]: all but the
    405 and 425 [HTTPError]s. *)
Definition counted_error (fetched : fetch_outcome) : bool :=
  match fetched with
  | FetchOk => false
  | FetchHTTPError code => negb (code =? 405) && negb (code =? 425)
  | FetchOtherError => true
  end.

(** Iterations of the ingest loop: a stored event, a 405, a failed fetch, a
    failed [StoreEvent], a stored event. *)
Definition sample_iterations : list (fetch_outcome * bool) :=
  [(FetchOk, true); (FetchHTTPError 405, true); (FetchOtherError, true);
   (FetchOk, false); (FetchOk, true)].

(** ** The location of [parseAndStoreResults] (main.go)

    [INSERT OR IGNORE INTO locations (slug, country) VALUES (?, ?)
    RETURNING id]: a row with the same slug violates [slug UNIQUE], the insert
    is ignored and [RETURNING] yields no row, so [Scan] fails with
    [sql.ErrNoRows]; otherwise the new row gets a fresh [AUTOINCREMENT] id.
    The counter of the locations table is not in [db]; it is passed as
    [seq]. *)
Definition insert_location (d : db) (seq : Z) (urlSlug : string) : db * Z * option Z :=
  if existsb (fun l => String.eqb (loc_slug l) urlSlug) (locations d) then (d, seq, None)
  else
    let id := next_rowid seq (map loc_id (locations d)) in
    let row := {| loc_id := id; loc_slug := urlSlug; loc_name := None; loc_country := "AUS" |} in
    ({| locations := locations d ++ [row]; events := events d; results := results d;
        seq_events := seq_events d; seq_results := seq_results d |}, id, Some id).

(** The insert, then, when it returned no row, [SELECT id FROM locations
    WHERE slug = ?]; [None] is the [log.Fatal] of a failed lookup. *)
Definition get_location_id (d : db) (seq : Z) (urlSlug : string) : db * Z * option Z :=
  let '(d', seq', returned) := insert_location d seq urlSlug in
  match returned with
  | Some locationID => (d', seq', Some locationID)
  | None => (d', seq', find_location d' urlSlug)
  end.

(** * Proofs *)

(** ** Unit checks *)

Example timeToSeconds_mmss : timeToSeconds "23:45" = Ok 1425.
Proof. reflexivity. Qed.
Example timeToSeconds_hmmss : timeToSeconds "1:23:45" = Ok 5025.
Proof. reflexivity. Qed.
Example timeToSeconds_bad : is_err (timeToSeconds "23:45:67:89") = true /\
                            is_err (timeToSeconds "ab:cd") = true.
Proof. split; reflexivity. Qed.
Example timeToSeconds_neg : timeToSeconds "-5:30" = Ok (-270).
Proof. reflexivity. Qed.
Example timeToSeconds_big : is_err (timeToSeconds "9223372036854775808:00") = true.
Proof. vm_compute. reflexivity. Qed.
Example atoi_big : Atoi "9223372036854775807" = (int_max, None).
Proof. vm_compute. reflexivity. Qed.

(** ** strconv.Atoi accepts exactly the in-range integer literals *)

Lemma dec_digit_spec c :
  dec_digit c = if is_dec_digit c then Some (digit_value c) else None.
Proof.
  unfold dec_digit, is_dec_digit, digit_value.
  pose proof (nat_ascii_bounded c) as Hb.
  destruct (48 <=? nat_of_ascii c)%nat eqn:E1;
  destruct (nat_of_ascii c <=? 57)%nat eqn:E2; simpl;
  apply Nat.leb_le in E1 || apply Nat.leb_gt in E1;
  apply Nat.leb_le in E2 || apply Nat.leb_gt in E2.
  all: try lia.
  all: first [ rewrite Z.mod_small by lia
             | rewrite <- (Z.mod_add _ 1 256) by lia; rewrite Z.mod_small by lia ];
    match goal with |- context [?x >? 9] => destruct (Z.gtb_spec x 9) end;
    (reflexivity || lia).
Qed.

Lemma digit_value_range c : is_dec_digit c = true -> 0 <= digit_value c <= 9.
Proof.
  unfold is_dec_digit, digit_value; intros H.
  apply andb_true_iff in H as [H1 H2].
  apply Nat.leb_le in H1; apply Nat.leb_le in H2; lia.
Qed.

Lemma decimal_value_cons n c cs :
  decimal_value n (c :: cs) = decimal_value (n * 10 + digit_value c) cs.
Proof. reflexivity. Qed.

Lemma decimal_value_ge n cs :
  0 <= n -> forallb is_dec_digit cs = true -> n <= decimal_value n cs.
Proof.
  revert n; induction cs as [|c cs IH]; intros n Hn Hd; simpl in *; [lia|].
  apply andb_true_iff in Hd as [Hc Hd].
  pose proof (digit_value_range c Hc).
  specialize (IH (n * 10 + digit_value c) ltac:(lia) Hd). lia.
Qed.

Lemma decimal_value_lt n cs :
  0 <= n -> forallb is_dec_digit cs = true ->
  decimal_value n cs < (n + 1) * 10 ^ Z.of_nat (length cs).
Proof.
  revert n; induction cs as [|c cs IH]; intros n Hn Hd; simpl in *; [lia|].
  apply andb_true_iff in Hd as [Hc Hd].
  pose proof (digit_value_range c Hc).
  specialize (IH (n * 10 + digit_value c) ltac:(lia) Hd).
  rewrite Nat2Z.inj_succ, Z.pow_succ_r by lia.
  assert (0 < 10 ^ Z.of_nat (length cs)) by (apply Z.pow_pos_nonneg; lia).
  nia.
Qed.

Lemma atoi_fast_loop_spec n cs :
  atoi_fast_loop n cs =
  if forallb is_dec_digit cs then Some (decimal_value n cs) else None.
Proof.
  revert n; induction cs as [|c cs IH]; intros n; [reflexivity|].
  simpl. rewrite dec_digit_spec.
  destruct (is_dec_digit c); simpl; [apply IH|reflexivity].
Qed.

Lemma parse_uint_loop_range n cs v :
  parse_uint_loop n cs = (v, Some ErrRange) -> v = max_uint64.
Proof.
  revert n; induction cs as [|c cs IH]; intros n H; simpl in H; [discriminate|].
  destruct (dec_digit c); [|discriminate].
  destruct (n >=? uint_cutoff); [congruence|].
  destruct (_ >? max_uint64); [congruence|eauto].
Qed.

Lemma max_uint64_val : max_uint64 = 18446744073709551615.
Proof. reflexivity. Qed.
Lemma uint_cutoff_val : uint_cutoff = 1844674407370955162.
Proof. reflexivity. Qed.

Lemma parse_uint_loop_ok n cs v :
  0 <= n <= max_uint64 ->
  parse_uint_loop n cs = (v, None) <->
  forallb is_dec_digit cs = true /\ decimal_value n cs = v /\ v <= max_uint64.
Proof.
  revert n; induction cs as [|c cs IH]; intros n Hn; simpl.
  - split; [intros [= <-]; lia|intros (_ & <- & _); reflexivity].
  - rewrite dec_digit_spec. destruct (is_dec_digit c) eqn:Hc; simpl;
      [|split; [discriminate|intros [? _]; discriminate]].
    pose proof (digit_value_range c Hc).
    destruct (n >=? uint_cutoff) eqn:Ecut.
    + split; [discriminate|]. intros (Hd & Hv & Hle).
      pose proof (decimal_value_ge (n * 10 + digit_value c) cs ltac:(lia) Hd).
      unfold decimal_value in *.
      apply Z.geb_le in Ecut. rewrite uint_cutoff_val in Ecut.
      rewrite max_uint64_val in *. lia.
    + destruct (n * 10 + digit_value c >? max_uint64) eqn:Emax.
      * split; [discriminate|]. intros (Hd & Hv & Hle).
        pose proof (decimal_value_ge (n * 10 + digit_value c) cs ltac:(lia) Hd).
        unfold decimal_value in *.
        apply Z.gtb_lt in Emax. lia.
      * rewrite Z.gtb_ltb, Z.ltb_ge in Emax. rewrite Z.geb_leb, Z.leb_gt in Ecut.
        rewrite uint_cutoff_val, max_uint64_val in *.
        rewrite IH by lia. reflexivity.
Qed.

Lemma ParseUint_ok cs v :
  ParseUint cs = (v, None) <-> decimal_digits cs = Some v /\ v <= max_uint64.
Proof.
  unfold ParseUint, decimal_digits. destruct cs as [|c cs'] eqn:Ecs.
  - split; [discriminate|intros [? _]; discriminate].
  - rewrite <- Ecs. rewrite parse_uint_loop_ok by (unfold max_uint64; lia).
    destruct (forallb is_dec_digit cs); split.
    + intros (_ & <- & ?); auto.
    + intros ([= <-] & ?); auto.
    + intros (? & _); discriminate.
    + intros (? & _); discriminate.
Qed.

Lemma ParseUint_err cs v e :
  ParseUint cs = (v, Some e) -> e = ErrSyntax \/ v = max_uint64.
Proof.
  unfold ParseUint. destruct cs; [intros [= _ <-]; auto|].
  destruct e; [auto|]. intros H. right. eapply parse_uint_loop_range, H.
Qed.

Lemma decimal_digits_nonneg cs v : decimal_digits cs = Some v -> 0 <= v.
Proof.
  unfold decimal_digits. destruct cs; [discriminate|].
  destruct (forallb _ _) eqn:E; [|discriminate]. intros [= <-].
  apply (decimal_value_ge 0 (a :: cs)); [lia|exact E].
Qed.

Lemma decimal_digits_bound cs v :
  decimal_digits cs = Some v -> 0 <= v < 10 ^ Z.of_nat (length cs).
Proof.
  unfold decimal_digits. destruct cs as [|c cs]; [discriminate|].
  destruct (forallb _ _) eqn:E; [|discriminate]. intros [= <-].
  split; [apply (decimal_value_ge 0 (c :: cs)); [lia|exact E]|].
  pose proof (decimal_value_lt 0 (c :: cs) ltac:(lia) E).
  rewrite decimal_value_cons in H. lia.
Qed.

Ltac ascii_cases c :=
  destruct (Ascii.eqb c "+") eqn:Ep; destruct (Ascii.eqb c "-") eqn:Em;
  [apply Ascii.eqb_eq in Ep; apply Ascii.eqb_eq in Em; congruence| | |].

Lemma in_int_range_val z :
  in_int_range z <-> -9223372036854775808 <= z <= 9223372036854775807.
Proof. reflexivity. Qed.

Lemma ParseInt_signed_ok neg s v :
  ParseInt_signed neg s = (v, None) <->
  (exists u, decimal_digits s = Some u /\ v = (if neg then - u else u)) /\
  in_int_range v.
Proof.
  rewrite in_int_range_val. unfold ParseInt_signed.
  assert (Hback : forall u, decimal_digits s = Some u -> u <= max_uint64 ->
                            ParseUint s = (u, None))
    by (intros u Hd Hm; apply ParseUint_ok; auto).
  assert (Hrhs : forall u, decimal_digits s = Some u ->
                 -9223372036854775808 <= (if neg then - u else u) <= 9223372036854775807 ->
                 ParseUint s = (u, None)).
  { intros u Hd Hr. pose proof (decimal_digits_nonneg _ _ Hd).
    apply Hback; [exact Hd|]. rewrite max_uint64_val. destruct neg; lia. }
  destruct (ParseUint s) as [un err] eqn:Hu.
  destruct err as [[|]|]; cbv beta iota zeta.
  - split; [intros [=]|]. intros [(u & Hd & ->) Hr].
    specialize (Hrhs u Hd Hr); congruence.
  - pose proof (ParseUint_err s un ErrRange Hu) as [?| ->]; [discriminate|].
    assert (E1 : (max_uint64 >=? 2 ^ 63) = true) by reflexivity.
    assert (E2 : (max_uint64 >? 2 ^ 63) = true) by reflexivity.
    destruct neg; cbn [negb andb]; rewrite ?E1, ?E2;
      (split; [intros [=]|]); intros [(u & Hd & ->) Hr];
      specialize (Hrhs u Hd Hr); congruence.
  - destruct (proj1 (ParseUint_ok s un) Hu) as [Hd Hm].
    pose proof (decimal_digits_nonneg _ _ Hd).
    rewrite max_uint64_val in Hm.
    destruct neg; cbn [negb andb].
    + destruct (Z.gtb_spec un (2 ^ 63)).
      * split; [intros [=]|]. intros [(u & Hd' & ->) Hr].
        rewrite Hd in Hd'; injection Hd' as <-. lia.
      * split.
        -- intros [= <-]. split; [eauto|lia].
        -- intros [(u & Hd' & ->) Hr]. rewrite Hd in Hd'; injection Hd' as <-.
           reflexivity.
    + destruct (Z.geb_spec un (2 ^ 63)).
      * split; [intros [=]|]. intros [(u & Hd' & ->) Hr].
        rewrite Hd in Hd'; injection Hd' as <-. lia.
      * split.
        -- intros [= <-]. split; [eauto|lia].
        -- intros [(u & Hd' & ->) Hr]. rewrite Hd in Hd'; injection Hd' as <-.
           reflexivity.
Qed.

Lemma int_literal_chars_cases c rest :
  int_literal_chars (c :: rest) =
  if Ascii.eqb c "+" then decimal_digits rest
  else if Ascii.eqb c "-" then option_map Z.opp (decimal_digits rest)
  else decimal_digits (c :: rest).
Proof. reflexivity. Qed.

Lemma signed_digits_iff (neg : bool) (s : list ascii) (v : Z) :
  (exists u : Z, decimal_digits s = Some u /\ v = (if neg then - u else u)) <->
  (if neg then option_map Z.opp (decimal_digits s) else decimal_digits s) = Some v.
Proof.
  destruct (decimal_digits s) as [u|]; destruct neg; simpl; split.
  all: first [ intros (u' & Hu & ->); injection Hu as <-; reflexivity
             | intros (u' & Hu & _); discriminate
             | intros Hv; injection Hv as <-; eauto
             | intros Hv; discriminate ].
Qed.

Lemma ParseInt_ok s0 v :
  ParseInt s0 = (v, None) <-> int_literal_chars s0 = Some v /\ in_int_range v.
Proof.
  destruct s0 as [|c rest]; [split; [discriminate|intros [? _]; discriminate]|].
  unfold ParseInt. rewrite int_literal_chars_cases.
  ascii_cases c.
  - rewrite ParseInt_signed_ok, (signed_digits_iff false). reflexivity.
  - rewrite ParseInt_signed_ok, (signed_digits_iff true). reflexivity.
  - rewrite ParseInt_signed_ok, (signed_digits_iff false). reflexivity.
Qed.

Lemma fast_path_ok (s : list ascii) (neg : bool) (v : Z) :
  (length s <= 18)%nat ->
  (match s with
   | [] => (0, Some ErrSyntax)
   | _ => match atoi_fast_loop 0 s with
          | None => (0, Some ErrSyntax)
          | Some n => if neg then (- n, None) else (n, None)
          end
   end) = (v, None) <->
  (if neg then option_map Z.opp (decimal_digits s) else decimal_digits s) = Some v /\
  in_int_range v.
Proof.
  intros Hl. destruct s as [|c s'] eqn:Es.
  - destruct neg; simpl; split; [intros [=]|intros [[=] _]|intros [=]|intros [[=] _]].
  - rewrite <- Es in Hl |- *. rewrite atoi_fast_loop_spec.
    assert (Hd : decimal_digits s =
                 if forallb is_dec_digit s then Some (decimal_value 0 s) else None)
      by (rewrite Es; reflexivity).
    rewrite Hd. destruct (forallb is_dec_digit s) eqn:Ef.
    + assert (Hb : 0 <= decimal_value 0 s < 10 ^ 18).
      { split; [apply decimal_value_ge; auto; lia|].
        pose proof (decimal_value_lt 0 s ltac:(lia) Ef).
        assert (10 ^ Z.of_nat (length s) <= 10 ^ 18)
          by (apply Z.pow_le_mono_r; lia). lia. }
      rewrite in_int_range_val.
      replace (10 ^ 18) with 1000000000000000000 in Hb by reflexivity.
      destruct neg; simpl; split.
      * intros [= <-]. split; [reflexivity|lia].
      * intros [[= <-] _]. reflexivity.
      * intros [= <-]. split; [reflexivity|lia].
      * intros [[= <-] _]. reflexivity.
    + destruct neg; simpl; split; [intros [=]|intros [[=] _]|intros [=]|intros [[=] _]].
Qed.

Lemma Atoi_ok str v :
  Atoi str = (v, None) <-> int_literal str = Some v /\ in_int_range v.
Proof.
  unfold Atoi, int_literal.
  generalize (list_ascii_of_string str) as s0; intros s0.
  destruct ((0 <? length s0)%nat && (length s0 <? 19)%nat) eqn:Hlen;
    [|apply ParseInt_ok].
  apply andb_true_iff in Hlen as [H0 H19].
  apply Nat.ltb_lt in H0; apply Nat.ltb_lt in H19.
  destruct s0 as [|c rest]; [simpl in H0; lia|].
  rewrite int_literal_chars_cases. simpl in H19.
  ascii_cases c; cbn [orb].
  - apply (fast_path_ok rest false). lia.
  - apply (fast_path_ok rest true). lia.
  - apply (fast_path_ok (c :: rest) false). simpl. lia.
Qed.

Lemma Atoi_no_error p :
  snd (Atoi p) = None <-> exists v, int_literal p = Some v /\ in_int_range v.
Proof.
  destruct (Atoi p) as [a e] eqn:Ha; simpl. split.
  - intros ->. exists a. apply Atoi_ok, Ha.
  - intros (v & Hv). apply Atoi_ok in Hv. congruence.
Qed.


Lemma split_on_no_sep sep m : no_sep sep m = true -> split_on sep m = [m].
Proof.
  unfold no_sep. induction m as [|c m IH]; simpl; [reflexivity|].
  intros H. apply andb_true_iff in H as [Hc Hm].
  apply negb_true_iff in Hc. rewrite Hc, IH by exact Hm. reflexivity.
Qed.

Lemma split_on_app sep m rest :
  no_sep sep m = true ->
  split_on sep (m ++ String sep rest) = m :: split_on sep rest.
Proof.
  unfold no_sep. induction m as [|c m IH]; simpl; intros H.
  - rewrite Ascii.eqb_refl. reflexivity.
  - apply andb_true_iff in H as [Hc Hm].
    apply negb_true_iff in Hc. rewrite Hc, IH by exact Hm. reflexivity.
Qed.

Lemma digits_no_colon s v :
  decimal_digits (list_ascii_of_string s) = Some v -> no_sep ":" s = true.
Proof.
  unfold decimal_digits, no_sep.
  destruct (list_ascii_of_string s) as [|c cs] eqn:E; [discriminate|].
  destruct (forallb is_dec_digit (c :: cs)) eqn:Ed; [|discriminate]. intros _.
  apply forallb_forall. intros x Hx.
  pose proof (proj1 (forallb_forall _ _) Ed x Hx) as Hdx.
  apply negb_true_iff. destruct (Ascii.eqb x ":") eqn:Ex; [|reflexivity].
  apply Ascii.eqb_eq in Ex. subst x. discriminate.
Qed.

Lemma decimal_digits_literal s v :
  decimal_digits (list_ascii_of_string s) = Some v -> int_literal s = Some v.
Proof.
  unfold int_literal. destruct (list_ascii_of_string s) as [|c cs]; [discriminate|].
  intros Hd. rewrite int_literal_chars_cases.
  assert (Hc : is_dec_digit c = true).
  { unfold decimal_digits in Hd. simpl in Hd.
    destruct (is_dec_digit c); [reflexivity|discriminate]. }
  destruct (Ascii.eqb c "+") eqn:Ep;
    [apply Ascii.eqb_eq in Ep; subst c; discriminate|].
  destruct (Ascii.eqb c "-") eqn:Em;
    [apply Ascii.eqb_eq in Em; subst c; discriminate|].
  exact Hd.
Qed.

Lemma Atoi_decimal s v :
  decimal_digits (list_ascii_of_string s) = Some v -> v <= int_max ->
  Atoi s = (v, None).
Proof.
  intros Hd Hm. apply Atoi_ok. split; [apply decimal_digits_literal, Hd|].
  pose proof (decimal_digits_nonneg _ _ Hd).
  unfold in_int_range, int_min, int_max in *. lia.
Qed.

Lemma wrap64_id z : in_int_range z -> wrap64 z = z.
Proof.
  rewrite in_int_range_val. intros Hr. unfold wrap64.
  replace (2 ^ 64) with 18446744073709551616 by reflexivity.
  replace (2 ^ 63) with 9223372036854775808 by reflexivity.
  destruct (Z_le_gt_dec 0 z).
  - rewrite Z.mod_small by lia.
    destruct (Z.geb_spec z 9223372036854775808); lia.
  - rewrite <- (Z.mod_add z 1 18446744073709551616) by lia.
    rewrite Z.mod_small by lia.
    destruct (Z.geb_spec (z + 1 * 18446744073709551616) 9223372036854775808); lia.
Qed.

Lemma parse_uint_loop_no_syntax n cs :
  forallb is_dec_digit cs = true -> snd (parse_uint_loop n cs) <> Some ErrSyntax.
Proof.
  revert n; induction cs as [|c cs IH]; intros n Hd; simpl; [discriminate|].
  apply andb_true_iff in Hd as [Hc Hd]. rewrite dec_digit_spec, Hc.
  destruct (n >=? uint_cutoff); [discriminate|].
  destruct (_ >? max_uint64); [discriminate|apply IH, Hd].
Qed.

Lemma digit_not_plus_minus c :
  is_dec_digit c = true -> Ascii.eqb c "-" = false /\ Ascii.eqb c "+" = false.
Proof.
  intros Hc. split.
  - destruct (Ascii.eqb_spec c "-"); [subst c; discriminate|reflexivity].
  - destruct (Ascii.eqb_spec c "+"); [subst c; discriminate|reflexivity].
Qed.

(** [strconv.Atoi] on decimal digits fails, if at all, with a range error. *)
Lemma Atoi_digits_no_syntax s v :
  decimal_digits (list_ascii_of_string s) = Some v -> snd (Atoi s) <> Some ErrSyntax.
Proof.
  unfold Atoi. generalize (list_ascii_of_string s) as s0. intros s0 Hd.
  destruct s0 as [|c rest]; [discriminate|].
  unfold decimal_digits in Hd. destruct (forallb is_dec_digit (c :: rest)) eqn:Hall;
    [|discriminate].
  pose proof Hall as Hall'. simpl in Hall'. apply andb_true_iff in Hall' as [Hc _].
  destruct (digit_not_plus_minus c Hc) as [Hm Hp].
  destruct (_ && _).
  - cbn [snd]. cbv zeta. rewrite Hm, Hp. cbn [orb].
    rewrite atoi_fast_loop_spec, Hall. discriminate.
  - unfold ParseInt. rewrite Hp, Hm. unfold ParseInt_signed.
    pose proof (parse_uint_loop_no_syntax 0 (c :: rest) Hall) as Hns.
    unfold ParseUint. destruct (parse_uint_loop 0 (c :: rest)) as [un [[|]|]];
      simpl in Hns |- *; [congruence| |];
      destruct (un >=? 2 ^ 63); simpl; discriminate.
Qed.

Lemma Atoi_decimal_range s v :
  decimal_digits (list_ascii_of_string s) = Some v -> int_max < v ->
  snd (Atoi s) = Some ErrRange.
Proof.
  intros Hd Hv. pose proof (Atoi_digits_no_syntax s v Hd) as Hns.
  destruct (Atoi s) as [a [[|]|]] eqn:Ha; simpl in *; [congruence|reflexivity|].
  apply Atoi_ok in Ha as [Hl Hr]. rewrite (decimal_digits_literal s v Hd) in Hl.
  injection Hl as ->. unfold in_int_range in Hr. lia.
Qed.

Lemma wrap64_mod z : wrap64 z mod 2 ^ 64 = z mod 2 ^ 64.
Proof.
  unfold wrap64. change (2 ^ 64) with 18446744073709551616.
  change (2 ^ 63) with 9223372036854775808.
  destruct (Z.geb_spec (z mod 18446744073709551616) 9223372036854775808); [|apply Z.mod_mod; lia].
  replace (z mod 18446744073709551616 - 18446744073709551616)
    with (z mod 18446744073709551616 + (-1) * 18446744073709551616) by lia.
  rewrite Z.mod_add, Z.mod_mod; lia.
Qed.

Lemma wrap64_congr a b : a mod 2 ^ 64 = b mod 2 ^ 64 -> wrap64 a = wrap64 b.
Proof. unfold wrap64. intros ->. reflexivity. Qed.

Lemma wrap64_add_l a b : wrap64 (wrap64 a + b) = wrap64 (a + b).
Proof.
  apply wrap64_congr. rewrite Zplus_mod, wrap64_mod, <- Zplus_mod. reflexivity.
Qed.

Lemma wrap64_add_r a b : wrap64 (a + wrap64 b) = wrap64 (a + b).
Proof. rewrite Z.add_comm, wrap64_add_l, Z.add_comm. reflexivity. Qed.

Lemma wrap64_add3 a b c :
  wrap64 (wrap64 (wrap64 a + wrap64 b) + c) = wrap64 (a + b + c).
Proof.
  rewrite wrap64_add_l. rewrite <- Z.add_assoc, wrap64_add_l, Z.add_comm, <- Z.add_assoc.
  rewrite wrap64_add_l. f_equal. lia.
Qed.

Lemma wrap64_range z : in_int_range (wrap64 z).
Proof.
  rewrite in_int_range_val. unfold wrap64.
  change (2 ^ 64) with 18446744073709551616. change (2 ^ 63) with 9223372036854775808.
  pose proof (Z.mod_pos_bound z 18446744073709551616 ltac:(lia)).
  destruct (Z.geb_spec (z mod 18446744073709551616) 9223372036854775808); lia.
Qed.

Lemma split_two m s vm vs :
  nonneg_int_segment m vm -> nonneg_int_segment s vs ->
  split_on ":" (m ++ ":" ++ s) = [m; s].
Proof.
  intros Hm Hs. change (m ++ ":" ++ s)%string with (m ++ String ":" s)%string.
  rewrite split_on_app by (eapply digits_no_colon, Hm).
  rewrite split_on_no_sep by (eapply digits_no_colon, Hs). reflexivity.
Qed.

Lemma not_empty_or_unknown str :
  (length (split_on ":" str) > 1)%nat ->
  (String.eqb str "" || String.eqb str "Unknown") = false.
Proof.
  intros Hl. destruct (String.eqb str "") eqn:E1;
    [apply String.eqb_eq in E1; subst; simpl in Hl; lia|].
  destruct (String.eqb str "Unknown") eqn:E2;
    [apply String.eqb_eq in E2; subst; simpl in Hl; lia|].
  reflexivity.
Qed.

Lemma segment_nonneg seg n : nonneg_int_segment seg n -> 0 <= n.
Proof. apply decimal_digits_nonneg. Qed.

Ltac atoi_segments :=
  repeat match goal with
  | H : nonneg_int_segment ?p ?v |- context [Atoi ?p] =>
      rewrite (Atoi_decimal p v H) by (unfold int_max in *; lia)
  end.

(** C5 (amended). For segments [h], [m], [s] written as decimal digits
    with values [vh], [vm], [vs]: [timeToSeconds] maps [m:s] to
    [vm*60+vs] and [h:m:s] to [vh*3600+vm*60+vs] whenever that value fits
    Go's [int]; when every segment fits Go's [int] it returns that value
    wrapped around to 64 bits, whatever its size; the first segment that
    does not fit Go's [int] makes it fail with a range error of
    [strconv.Atoi] for that segment; the empty string and "Unknown" give 0
    without an error. *)
Theorem timeToSeconds_nonneg_segments (h m s : string) (vh vm vs : Z) :
  nonneg_int_segment h vh -> nonneg_int_segment m vm -> nonneg_int_segment s vs ->
  timeToSeconds "" = Ok 0 /\ timeToSeconds "Unknown" = Ok 0 /\
  (vm * 60 + vs <= int_max ->
   timeToSeconds (m ++ ":" ++ s) = Ok (vm * 60 + vs)) /\
  (vh * 3600 + vm * 60 + vs <= int_max ->
   timeToSeconds (h ++ ":" ++ m ++ ":" ++ s) = Ok (vh * 3600 + vm * 60 + vs)) /\
  (vm <= int_max -> vs <= int_max ->
   timeToSeconds (m ++ ":" ++ s) = Ok (wrap64 (vm * 60 + vs))) /\
  (vh <= int_max -> vm <= int_max -> vs <= int_max ->
   timeToSeconds (h ++ ":" ++ m ++ ":" ++ s) = Ok (wrap64 (vh * 3600 + vm * 60 + vs))) /\
  (int_max < vm -> timeToSeconds (m ++ ":" ++ s) = Err (InvalidMinutes ErrRange)) /\
  (vm <= int_max -> int_max < vs ->
   timeToSeconds (m ++ ":" ++ s) = Err (InvalidSeconds ErrRange)) /\
  (int_max < vh ->
   timeToSeconds (h ++ ":" ++ m ++ ":" ++ s) = Err (InvalidHours ErrRange)) /\
  (vh <= int_max -> int_max < vm ->
   timeToSeconds (h ++ ":" ++ m ++ ":" ++ s) = Err (InvalidMinutes ErrRange)) /\
  (vh <= int_max -> vm <= int_max -> int_max < vs ->
   timeToSeconds (h ++ ":" ++ m ++ ":" ++ s) = Err (InvalidSeconds ErrRange)).
Proof.
  intros Hh Hm Hs.
  pose proof (segment_nonneg _ _ Hh); pose proof (segment_nonneg _ _ Hm);
    pose proof (segment_nonneg _ _ Hs).
  assert (Hr : forall z, 0 <= z <= int_max -> in_int_range z)
    by (unfold in_int_range, int_min, int_max; lia).
  assert (Hsp2 : split_on ":" (m ++ ":" ++ s) = [m; s]) by exact (split_two m s vm vs Hm Hs).
  assert (Hsp3 : split_on ":" (h ++ ":" ++ m ++ ":" ++ s) = [h; m; s]).
  { change (h ++ ":" ++ m ++ ":" ++ s)%string
      with (h ++ String ":" (m ++ ":" ++ s))%string.
    rewrite split_on_app by (eapply digits_no_colon, Hh).
    rewrite Hsp2. reflexivity. }
  assert (T2 : timeToSeconds (m ++ ":" ++ s) =
               match Atoi m with
               | (_, Some e) => Err (InvalidMinutes e)
               | (minutes, None) =>
                   match Atoi s with
                   | (_, Some e) => Err (InvalidSeconds e)
                   | (seconds, None) => Ok (wrap64 (wrap64 (minutes * 60) + seconds))
                   end
               end).
  { unfold timeToSeconds. rewrite not_empty_or_unknown by (rewrite Hsp2; simpl; lia).
    rewrite Hsp2. reflexivity. }
  assert (T3 : timeToSeconds (h ++ ":" ++ m ++ ":" ++ s) =
               match Atoi h with
               | (_, Some e) => Err (InvalidHours e)
               | (hours, None) =>
                   match Atoi m with
                   | (_, Some e) => Err (InvalidMinutes e)
                   | (minutes, None) =>
                       match Atoi s with
                       | (_, Some e) => Err (InvalidSeconds e)
                       | (seconds, None) =>
                           Ok (wrap64 (wrap64 (wrap64 (hours * 3600) + wrap64 (minutes * 60))
                                       + seconds))
                       end
                   end
               end).
  { unfold timeToSeconds. rewrite not_empty_or_unknown by (rewrite Hsp3; simpl; lia).
    rewrite Hsp3. reflexivity. }
  assert (W2 : vm <= int_max -> vs <= int_max ->
               timeToSeconds (m ++ ":" ++ s) = Ok (wrap64 (vm * 60 + vs))).
  { intros ? ?. rewrite T2. atoi_segments. rewrite wrap64_add_l. reflexivity. }
  assert (W3 : vh <= int_max -> vm <= int_max -> vs <= int_max ->
               timeToSeconds (h ++ ":" ++ m ++ ":" ++ s) =
                 Ok (wrap64 (vh * 3600 + vm * 60 + vs))).
  { intros ? ? ?. rewrite T3. atoi_segments. rewrite wrap64_add3. reflexivity. }
  assert (Rg : forall p v, nonneg_int_segment p v -> int_max < v ->
                 Atoi p = (fst (Atoi p), Some ErrRange)).
  { intros p v Hp Hv. pose proof (Atoi_decimal_range p v Hp Hv) as E.
    destruct (Atoi p); simpl in *; congruence. }
  split; [reflexivity|]. split; [reflexivity|]. split; [|split; [|split; [exact W2|split; [exact W3|]]]].
  - intros Hb. rewrite W2 by lia. rewrite wrap64_id by (apply Hr; lia). reflexivity.
  - intros Hb. rewrite W3 by lia. rewrite wrap64_id by (apply Hr; lia). reflexivity.
  - split; [|split; [|split; [|split]]].
    + intros Hb. rewrite T2, (Rg m vm Hm Hb). reflexivity.
    + intros Hb Hb'. rewrite T2. atoi_segments. rewrite (Rg s vs Hs Hb'). reflexivity.
    + intros Hb. rewrite T3, (Rg h vh Hh Hb). reflexivity.
    + intros Hb Hb'. rewrite T3. atoi_segments. rewrite (Rg m vm Hm Hb'). reflexivity.
    + intros Hb Hb' Hb''. rewrite T3. atoi_segments. rewrite (Rg s vs Hs Hb''). reflexivity.
Qed.

(** C6 (amended). [timeToSeconds] fails exactly when its input is neither
    the empty string nor "Unknown" and either it does not split on ':' into
    two or three segments or some segment is not accepted by
    [strconv.Atoi] (an optionally signed decimal integer in Go's [int]
    range). *)
Theorem timeToSeconds_error_iff (str : string) :
  is_err (timeToSeconds str) = true <->
  str <> "" /\ str <> "Unknown" /\
  ~ ((length (split_on ":" str) = 2 \/ length (split_on ":" str) = 3)%nat /\
     Forall atoi_segment (split_on ":" str)).
Proof.
  unfold timeToSeconds.
  destruct (String.eqb str "") eqn:E1.
  { apply String.eqb_eq in E1; subst. simpl. split; [discriminate|tauto]. }
  destruct (String.eqb str "Unknown") eqn:E2.
  { apply String.eqb_eq in E2; subst. simpl. split; [discriminate|tauto]. }
  apply String.eqb_neq in E1, E2. cbn [orb].
  assert (Fn : Forall atoi_segment []) by constructor.
  destruct (split_on ":" str) as [|p0 [|p1 [|p2 [|p3 rest]]]]; cbn [length].
  - simpl; split; [intros _; repeat split; auto; lia|reflexivity].
  - simpl; split; [intros _; repeat split; auto; lia|reflexivity].
  - pose proof (Atoi_no_error p0) as A0; pose proof (Atoi_no_error p1) as A1.
    fold (atoi_segment p0) in A0; fold (atoi_segment p1) in A1.
    rewrite !Forall_cons_iff.
    destruct (Atoi p0) as [a0 [e0|]]; simpl in A0;
      [|destruct (Atoi p1) as [a1 [e1|]]; simpl in A1]; simpl;
      (split; [intros Hr|intros (_ & _ & Hn)]);
      intuition (try discriminate; try lia).
  - pose proof (Atoi_no_error p0) as A0; pose proof (Atoi_no_error p1) as A1;
      pose proof (Atoi_no_error p2) as A2.
    fold (atoi_segment p0) in A0; fold (atoi_segment p1) in A1;
      fold (atoi_segment p2) in A2.
    rewrite !Forall_cons_iff.
    destruct (Atoi p0) as [a0 [e0|]]; simpl in A0;
      [|destruct (Atoi p1) as [a1 [e1|]]; simpl in A1;
        [|destruct (Atoi p2) as [a2 [e2|]]; simpl in A2]]; simpl;
      (split; [intros Hr|intros (_ & _ & Hn)]);
      intuition (try discriminate; try lia).
  - simpl; split; [intros _; repeat split; auto; lia|reflexivity].
Qed.

Lemma timeToSeconds_nonneg_segments_witness :
  nonneg_int_segment "1" 1 /\ nonneg_int_segment "23" 23 /\
  nonneg_int_segment "45" 45 /\
  timeToSeconds "23:45" = Ok 1425 /\ timeToSeconds "1:23:45" = Ok 5025 /\
  timeToSeconds "153722867280912931:00" = Ok (wrap64 (153722867280912931 * 60 + 0)) /\
  timeToSeconds "9223372036854775808:00" = Err (InvalidMinutes ErrRange).
Proof.
  assert (H1 : nonneg_int_segment "1" 1) by reflexivity.
  assert (H23 : nonneg_int_segment "23" 23) by reflexivity.
  assert (H45 : nonneg_int_segment "45" 45) by reflexivity.
  assert (Hbig : nonneg_int_segment "153722867280912931" 153722867280912931)
    by (vm_compute; reflexivity).
  assert (Hhuge : nonneg_int_segment "9223372036854775808" 9223372036854775808)
    by (vm_compute; reflexivity).
  assert (H00 : nonneg_int_segment "00" 0) by reflexivity.
  destruct (timeToSeconds_nonneg_segments "1" "23" "45" 1 23 45 H1 H23 H45)
    as (_ & _ & Two & Three & _).
  split; [exact H1|]. split; [exact H23|]. split; [exact H45|]. split.
  - exact (Two ltac:(unfold int_max; lia)).
  - split; [exact (Three ltac:(unfold int_max; lia))|]. split.
    + destruct (timeToSeconds_nonneg_segments "1" "153722867280912931" "00"
                  1 153722867280912931 0 H1 Hbig H00) as (_ & _ & _ & _ & W2 & _).
      exact (W2 ltac:(unfold int_max; lia) ltac:(unfold int_max; lia)).
    + destruct (timeToSeconds_nonneg_segments "1" "9223372036854775808" "00"
                  1 9223372036854775808 0 H1 Hhuge H00) as (_ & _ & _ & _ & _ & _ & R & _).
      exact (R ltac:(unfold int_max; lia)).
Defined.

(** C5: segments that are non-negative integers but do not fit Go's [int]
    fail, and in-range segments whose sum overflows wrap around. *)
Lemma timeToSeconds_int64_counterexample :
  nonneg_int_segment "9223372036854775808" 9223372036854775808 /\
  nonneg_int_segment "00" 0 /\
  timeToSeconds "9223372036854775808:00" <> Ok (9223372036854775808 * 60 + 0) /\
  nonneg_int_segment "153722867280912931" 153722867280912931 /\
  timeToSeconds "153722867280912931:00" = Ok (-9223372036854775756) /\
  -9223372036854775756 <> 153722867280912931 * 60 + 0.
Proof.
  split; [vm_compute; reflexivity|]. split; [reflexivity|].
  split; [vm_compute; discriminate|].
  split; [vm_compute; reflexivity|].
  split; [vm_compute; reflexivity|]. lia.
Qed.

(** C6: a negative segment is accepted by [strconv.Atoi], so the time
    parses to a negative number instead of failing. *)
Lemma timeToSeconds_negative_segment_accepted :
  timeToSeconds "-5:30" = Ok (-270) /\ is_err (timeToSeconds "-5:30") = false.
Proof. split; reflexivity. Qed.

Example TrimSpace_ex : TrimSpace " 	19:50 " = "19:50"%string.
Proof. vm_compute. reflexivity. Qed.
Example row_total_runs_ex :
  row_total_runs {| data_position := None; data_name := None; data_agegroup := None;
                    data_agegrade := None; data_achievement := None;
                    time_compact_text := ""; detailed_text := "12 parkruns" |} = 12.
Proof. vm_compute. reflexivity. Qed.

(** ** The extractor keeps rows by their time, not by their position *)

Lemma scrape_rows_fold rows results p k :
  fold_left scrape_row_step rows (results, p, k) =
  (results ++ map (fun s => row_result s (default 0 (row_time_seconds s)))
                  (List.filter row_kept rows),
   p + Z.of_nat (length (List.filter row_kept rows)),
   k + Z.of_nat (length (List.filter (fun s => negb (row_kept s)) rows))).
Proof.
  revert results p k. induction rows as [|s rows IH]; intros results p k; simpl.
  - rewrite app_nil_r. repeat (apply pair_equal_spec; split); try reflexivity; lia.
  - destruct (row_time_seconds s) as [t|] eqn:Et.
    + assert (Hk : row_kept s = true)
        by (unfold row_kept; rewrite Et; apply bool_decide_eq_true; eauto).
      rewrite Hk; simpl. rewrite IH. rewrite <- app_assoc. simpl.
      rewrite Et. repeat (apply pair_equal_spec; split); try reflexivity; lia.
    + assert (Hk : row_kept s = false)
        by (unfold row_kept; rewrite Et; apply bool_decide_eq_false;
            intros [? ?]; discriminate).
      rewrite Hk; simpl. rewrite IH. repeat (apply pair_equal_spec; split); try reflexivity; lia.
Qed.

(** C4 (amended). The extraction loop of [scrapeEvent] returns, in
    document order, exactly the rows whose name is "Unknown" or whose
    trimmed time text parses with [timeToSeconds]; each returned position is
    the value [strconv.Atoi] gives for [data-position] (default "0"),
    whether or not it is positive; [processedRows] counts the returned rows
    and [skippedRows] the others. *)
Theorem scrapeRows_filters_on_time (rows : list html_row) :
  let '(results, processedRows, skippedRows) := scrapeRows rows in
  results = map (fun s => row_result s (default 0 (row_time_seconds s)))
                (List.filter row_kept rows) /\
  map Position results =
    map (fun s => fst (Atoi (AttrOr (data_position s) "0"))) (List.filter row_kept rows) /\
  processedRows = Z.of_nat (length results) /\
  skippedRows = Z.of_nat (length (List.filter (fun s => negb (row_kept s)) rows)) /\
  (forall s, row_kept s = true <->
     AttrOr (data_name s) "" = "Unknown" \/
     is_err (timeToSeconds (TrimSpace (time_compact_text s))) = false).
Proof.
  unfold scrapeRows. rewrite scrape_rows_fold. simpl.
  split; [reflexivity|]. split; [rewrite map_map; reflexivity|].
  split; [rewrite length_map; reflexivity|]. split; [reflexivity|].
  intros s. unfold row_kept, row_time_seconds.
  destruct (String.eqb (AttrOr (data_name s) "") "Unknown") eqn:E; simpl.
  - apply String.eqb_eq in E. rewrite E.
    split; [auto|intros _; first [reflexivity|apply bool_decide_eq_true; eauto]].
  - apply String.eqb_neq in E.
    destruct (timeToSeconds _); simpl.
    + split; [auto|intros _; first [reflexivity|apply bool_decide_eq_true; eauto]].
    + split; [intros H; first [discriminate|apply bool_decide_eq_true in H;
                                destruct H; discriminate]|].
      intros [H|H]; [contradiction|discriminate].
Qed.

(** C4: rows whose position is 0 (written, or absent) are returned and not
    counted as skipped. *)
Lemma scrapeRows_keeps_nonpositive_positions :
  let '(results, processedRows, skippedRows) :=
    scrapeRows [row_position_zero; row_position_missing] in
  map Position results = [0; 0] /\ processedRows = 2 /\ skippedRows = 0.
Proof. vm_compute. auto. Qed.

(** ** GetNextEventNumber *)

Lemma max_event_step_fold (locationID : Z) (es : list event_row) (acc : option Z) :
  match fold_left (max_event_step locationID) es acc with
  | None => acc = None /\ forall e, In e es -> ev_location_id e <> locationID
  | Some m =>
      (acc = Some m \/
       exists e, In e es /\ ev_location_id e = locationID /\ ev_event_number e = m) /\
      (forall a, acc = Some a -> a <= m) /\
      (forall e, In e es -> ev_location_id e = locationID -> ev_event_number e <= m)
  end.
Proof.
  revert acc. induction es as [|e es IH]; intros acc; simpl.
  - destruct acc as [m|]; [|split; [reflexivity|tauto]].
    split; [auto|]. split; [intros a [= ->]; lia | tauto].
  - specialize (IH (max_event_step locationID acc e)).
    remember (max_event_step locationID acc e) as acc' eqn:Ha.
    unfold max_event_step in Ha.
    destruct (fold_left (max_event_step locationID) es acc') as [m|].
    + destruct IH as (Hw & Hacc & Hall).
      destruct (Z.eqb_spec (ev_location_id e) locationID) as [He|He].
      * destruct acc as [a|]; subst acc'.
        -- specialize (Hacc _ eq_refl).
           split.
           ++ destruct Hw as [[= Hw]|(e' & Hin & Hl & Hn)].
              ** destruct (Z.max_spec a (ev_event_number e)) as [[_ Hmx]|[_ Hmx]];
                   rewrite Hmx in Hw; [right; exists e; auto|left; congruence].
              ** right; exists e'; auto.
           ++ split; [intros a' [= <-]; lia|].
              intros e' [<-|Hin] Hl; [lia|]. apply Hall; auto.
        -- specialize (Hacc _ eq_refl).
           split; [destruct Hw as [[= <-]|(e' & ? & ? & ?)]; right;
                   [exists e|exists e']; auto|].
           split; [discriminate|].
           intros e' [<-|Hin] Hl; [lia|]. apply Hall; auto.
      * subst acc'.
        split; [destruct Hw as [->|(e' & ? & ? & ?)];
                [left; reflexivity|right; exists e'; auto]|].
        split; [intros a ->; apply Hacc; reflexivity|].
        intros e' [<-|Hin] Hl; [contradiction|]. apply Hall; auto.
    + destruct IH as [Hn Hall]. subst acc'.
      destruct (Z.eqb_spec (ev_location_id e) locationID) as [He|He].
      * destruct acc; discriminate.
      * split; [exact Hn|]. intros e' [<-|Hin]; [exact He|]. apply Hall, Hin.
Qed.

(** C7 (amended). For every location whose stored event numbers lie below Go's largest
    [int] (so that adding one does not wrap around), [GetNextEventNumber]
    returns 1 when the location has no stored event, and otherwise 1 plus the
    largest stored event number of that location: it exceeds every one of
    them and is one more than one of them. When the stored event numbers fit
    Go's [int] and the largest of them is Go's largest [int], the addition
    wraps around and [GetNextEventNumber] returns Go's smallest [int]. *)
Theorem GetNextEventNumber_max (d : db) (locationID : Z) :
  ((forall e, In e (events d) -> ev_location_id e = locationID ->
              int_min <= ev_event_number e < int_max) ->
   ((forall e, In e (events d) -> ev_location_id e <> locationID) ->
      GetNextEventNumber d locationID = 1) /\
   (forall e, In e (events d) -> ev_location_id e = locationID ->
      ev_event_number e < GetNextEventNumber d locationID) /\
   ((exists e, In e (events d) /\ ev_location_id e = locationID) ->
      exists e, In e (events d) /\ ev_location_id e = locationID /\
                GetNextEventNumber d locationID = ev_event_number e + 1)) /\
  ((forall e, In e (events d) -> ev_location_id e = locationID ->
              ev_event_number e <= int_max) ->
   (exists e, In e (events d) /\ ev_location_id e = locationID /\
              ev_event_number e = int_max) ->
   GetNextEventNumber d locationID = int_min).
Proof.
  pose proof (max_event_step_fold locationID (events d) None) as Hf.
  unfold GetNextEventNumber, max_event_number.
  split.
  - intros Hr.
    destruct (fold_left (max_event_step locationID) (events d) None) as [m|] eqn:Hm.
    + destruct Hf as ([Hw|(e & Hin & Hl & Hn)] & _ & Hall); [discriminate|].
      specialize (Hr e Hin Hl). rewrite wrap64_id
        by (rewrite in_int_range_val; unfold int_min, int_max in Hr; simpl in Hr; lia).
      split; [intros Hno; exfalso; exact (Hno e Hin Hl)|].
      split; [intros e' Hin' Hl'; specialize (Hall e' Hin' Hl'); lia|].
      intros _. exists e. repeat split; auto; lia.
    + destruct Hf as [_ Hno].
      split; [reflexivity|].
      split; [intros e Hin Hl; exfalso; exact (Hno e Hin Hl)|].
      intros (e & Hin & Hl). exfalso. exact (Hno e Hin Hl).
  - intros Hle (e & Hin & Hl & Hmax).
    destruct (fold_left (max_event_step locationID) (events d) None) as [m|] eqn:Hm.
    + destruct Hf as ([Hw|(e' & Hin' & Hl' & Hn)] & _ & Hall); [discriminate|].
      specialize (Hall e Hin Hl). specialize (Hle e' Hin' Hl').
      replace m with int_max by lia. vm_compute. reflexivity.
    + destruct Hf as [_ Hno]. exfalso. exact (Hno e Hin Hl).
Qed.

Lemma GetNextEventNumber_max_witness :
  GetNextEventNumber events_1_2 1 = 3 /\
  (exists e, In e (events events_1_2) /\ ev_location_id e = 1 /\
             GetNextEventNumber events_1_2 1 = ev_event_number e + 1) /\
  GetNextEventNumber last_int_event_db 1 = int_min.
Proof.
  split; [vm_compute; reflexivity|]. split.
  - apply (proj1 (GetNextEventNumber_max events_1_2 1)).
    + intros e Hin _. vm_compute in Hin.
      unfold int_min, int_max; simpl.
      destruct Hin as [<-|[<-|[]]]; simpl; lia.
    + vm_compute. eexists. split; [left; reflexivity|reflexivity].
  - apply (proj2 (GetNextEventNumber_max last_int_event_db 1)).
    + intros e [<-|[]] _. simpl. lia.
    + eexists. split; [left; reflexivity|]. split; reflexivity.
Defined.

(** ** Storing an event a second time *)

(** C2 (divergence). Ingesting an already stored event again with the same
    rows does not leave the tables unchanged: [INSERT OR REPLACE] deletes the
    old events row and inserts a new one under a fresh id (1, then 2), which
    [StoreEvent] returns; [StoreResults] then inserts the rows under that new
    id, which conflicts with none of the old rows, so the old results row
    stays (pointing at the deleted event 1) and the results table grows from
    one row to two. *)
Theorem reingest_duplicates_results :
  map ev_id (events stored_once) = [1] /\
  map ev_id (events stored_twice) = [2] /\
  length (events stored_twice) = length (events stored_once) /\
  length (results stored_once) = 1%nat /\
  length (results stored_twice) = 2%nat /\
  map r_event_id (results stored_twice) = [Some 1; Some 2] /\
  map r_position (results stored_twice) = [1; 1].
Proof. vm_compute. repeat split. Qed.

(** ** ClearLocationData *)

Lemma delete_location_results_In (L : Z) (t : db) (r : result_row) :
  In r (results (delete_location_results L t)) <->
  In r (results t) /\
  ~ (exists e, In e (events t) /\ ev_location_id e = L /\ r_event_id r = Some (ev_id e)).
Proof.
  simpl. rewrite filter_In.
  destruct (r_event_id r) as [x|] eqn:Hx.
  - rewrite negb_true_iff, <- not_true_iff_false, existsb_exists.
    split; intros [Hin Hn]; split; auto; intros He; apply Hn.
    + destruct He as (e & He & Hl & [= ->]).
      exists (ev_id e). split; [|apply Z.eqb_refl].
      apply in_map, filter_In. split; auto. apply Z.eqb_eq, Hl.
    + destruct He as (y & Hy & Hxy). apply Z.eqb_eq in Hxy as <-.
      apply in_map_iff in Hy as (e & <- & He). apply filter_In in He as [He Hl].
      exists e. split; [exact He|]. split; [apply Z.eqb_eq, Hl|reflexivity].
  - split; intros [Hin _]; split; auto.
    intros (e & _ & _ & [=]).
Qed.

(** C8. [ClearLocationData] is all or nothing. For a slug that is not stored
    it changes nothing and returns success (unless the lookup query itself
    fails). For a stored slug, either some call fails, an error is returned
    and the tables are exactly as before, or it succeeds and afterwards the
    locations are those of before except that location, the events those of
    before except that location's, and the results those of before except the
    ones belonging to an event the location had before the call (the results
    are deleted while the events are still there), rows of other locations
    being kept. With no failing call it succeeds. *)
Theorem ClearLocationData_atomic (f : clear_faults) (d : db) (urlSlug : string) :
  let '(res, d') := ClearLocationData f d urlSlug in
  (f = no_faults -> res = Ok tt) /\
  (find_location d urlSlug = None ->
     d' = d /\ (fail_find_location f = false -> res = Ok tt)) /\
  (forall locationID, find_location d urlSlug = Some locationID ->
     (is_err res = true /\ d' = d) \/
     (res = Ok tt /\
      (forall l, In l (locations d') <-> In l (locations d) /\ loc_id l <> locationID) /\
      (forall e, In e (events d') <-> In e (events d) /\ ev_location_id e <> locationID) /\
      (forall r, In r (results d') <->
                 In r (results d) /\
                 ~ (exists e, In e (events d) /\ ev_location_id e = locationID /\
                              r_event_id r = Some (ev_id e))))).
Proof.
  unfold ClearLocationData.
  destruct f as [f1 f2 f3 f4 f5 f6]; simpl.
  destruct f1; [repeat split; intros; try discriminate; left; auto|].
  destruct (find_location d urlSlug) as [L|] eqn:HL.
  2: { repeat split; auto. intros L [=]. }
  destruct f2; [repeat split; intros; try discriminate; left; auto|].
  destruct f3; [repeat split; intros; try discriminate; left; auto|].
  destruct f4; [repeat split; intros; try discriminate; left; auto|].
  destruct f5; [repeat split; intros; try discriminate; left; auto|].
  destruct f6; [repeat split; intros; try discriminate; left; auto|].
  split; [reflexivity|]. split; [intros [=]|].
  intros L' [= <-]. right. split; [reflexivity|].
  split; [|split].
  - intros l. simpl. rewrite filter_In, negb_true_iff, <- not_true_iff_false, Z.eqb_eq.
    reflexivity.
  - intros e. simpl. rewrite filter_In, negb_true_iff, <- not_true_iff_false, Z.eqb_eq.
    reflexivity.
  - intros r. exact (delete_location_results_In L d r).
Qed.

(** ** Reports: the report tests on the fixture *)

Example GetTopParticipants_fixture :
  map (fun st => (RunnerStat.Name st, RunnerStat.TotalRuns st))
      (GetTopParticipants fixture_db 1 10) =
  [("Runner A", 2); ("Runner D", 1); ("Runner B", 1)].
Proof. vm_compute. reflexivity. Qed.

Example GetMedianTimes_fixture :
  map (fun st => (Category st, Median st, Count st))
      (ReportsV2.GetMedianTimesByAgeCategory fixture_db 1) =
  [("VM35-39", "19:50", 3); ("VM40-44", "25:00", 1)]%string.
Proof. vm_compute. reflexivity. Qed.

Example total_runners_fixture : total_runners fixture_db 1 = 3.
Proof. vm_compute. reflexivity. Qed.

Example secondsToTime_ex :
  secondsToTime 1190 = "19:50" /\ secondsToTime 1185 = "19:45" /\
  secondsToTime 5025 = "1:23:45" /\ secondsToTime 0 = "Unknown".
Proof. vm_compute. auto. Qed.

Lemma In_take {A} (n : nat) (l : list A) (x : A) : In x (take n l) -> In x l.
Proof.
  intros H. rewrite <- (take_drop n l). apply in_or_app. left. exact H.
Qed.

Lemma In_sql_limit {A} (limit : Z) (l : list A) (x : A) : In x (sql_limit limit l) -> In x l.
Proof. unfold sql_limit. destruct (limit <? 0); [auto|apply In_take]. Qed.

Lemma In_name_counts (names : list string) (p : string * Z) :
  In p (name_counts names) -> In p.1 names.
Proof.
  unfold name_counts. intros (n & <- & Hn)%in_map_iff. simpl.
  apply list_elem_of_In, elem_of_remove_dups, list_elem_of_In, Hn.
Qed.

(** ** The placeholder name in the reports *)

(** C9 (divergence). [GetTopParticipants] never lists the name "Unknown",
    whatever the database; but the distinct-runner count of
    [GetLocationStats] has no such filter: for one event at location 1 with
    an anonymous finisher and "Runner A" it is 2, while the top-participants
    report lists only "Runner A". *)
Theorem total_runners_counts_unknown :
  (forall d locationID limit st,
     In st (GetTopParticipants d locationID limit) -> RunnerStat.Name st <> "Unknown") /\
  total_runners (two_results_db "Unknown" "Runner A" "SM25-29" (Some 1200) (Some 1300)) 1 = 2 /\
  map RunnerStat.Name
      (GetTopParticipants (two_results_db "Unknown" "Runner A" "SM25-29" (Some 1200) (Some 1300)) 1 10)
  = ["Runner A"].
Proof.
  split; [|vm_compute; auto].
  intros d locationID limit st Hst. unfold GetTopParticipants in Hst.
  apply in_map_iff in Hst as (p & <- & Hp). simpl.
  apply In_sql_limit in Hp.
  apply (Permutation_in _ (merge_sort_Permutation run_count_ge _)) in Hp.
  apply In_name_counts, in_map_iff in Hp as (r & Hr & Hin).
  apply filter_In in Hin as [_ Hn]. rewrite <- Hr.
  intros Heq. rewrite Heq in Hn. discriminate.
Qed.

(** ** The category map of GetMedianTimesByAgeCategory *)

Lemma append_time_fold (rows : list (string * Z)) (m : gmap string (list Z)) (c : string) :
  default [] (fold_left append_time rows m !! c) = default [] (m !! c) ++ times_of c rows /\
  (fold_left append_time rows m !! c = None <-> m !! c = None /\ times_of c rows = []).
Proof.
  revert m. induction rows as [|p rows IH]; intros m; simpl.
  - rewrite app_nil_r. tauto.
  - destruct (IH (append_time m p)) as [H1 H2]. rewrite H1, H2.
    unfold append_time, times_of. simpl.
    destruct (String.eqb_spec p.1 c) as [<-|Hne]; simpl.
    + rewrite lookup_insert_eq. simpl. rewrite <- app_assoc. split; [reflexivity|].
      split; [intros [[=] _]|intros [_ [=]]].
    + rewrite lookup_insert_ne by exact Hne. tauto.
Qed.

Lemma group_times_lookup (rows : list (string * Z)) (c : string) (ts : list Z) :
  group_times rows !! c = Some ts <-> ts = times_of c rows /\ times_of c rows <> [].
Proof.
  destruct (append_time_fold rows ∅ c) as [H1 H2].
  rewrite lookup_empty in H1, H2. simpl in H1. unfold group_times.
  destruct (fold_left append_time rows ∅ !! c) as [ts'|] eqn:Hg; simpl in H1.
  - split; [intros [= E]; subst; split; [reflexivity|];
               intros Hn; discriminate (proj2 H2 (conj eq_refl Hn))|].
    intros [-> _]. rewrite H1. reflexivity.
  - split; [discriminate|]. intros [_ Hn]. exfalso. apply Hn, H2. reflexivity.
Qed.

Lemma In_median_stats (median : list Z -> Z) (d : db) (locationID : Z) (st : TimeStats) :
  In st (median_stats median d locationID) <->
  exists c ts, group_times (median_rows d locationID) !! c = Some ts /\
    st = {| Category := c; Median := secondsToTime (median (merge_sort Z.le ts));
            Count := Z.of_nat (length (merge_sort Z.le ts)) |}.
Proof.
  unfold median_stats. split.
  - intros Hst. apply (Permutation_in _ (merge_sort_Permutation stats_le _)) in Hst.
    apply in_map_iff in Hst as ([c ts] & <- & Hin).
    apply list_elem_of_In, elem_of_map_to_list in Hin. exists c, ts. auto.
  - intros (c & ts & Hg & ->).
    apply (Permutation_in _ (Permutation_sym (merge_sort_Permutation stats_le _))).
    apply in_map_iff. exists (c, ts). split; [reflexivity|].
    apply list_elem_of_In, elem_of_map_to_list, Hg.
Qed.

Lemma Permutation_filter_bool {A} (f : A -> bool) (l1 l2 : list A) :
  Permutation l1 l2 -> Permutation (List.filter f l1) (List.filter f l2).
Proof.
  induction 1 as [|x l1 l2 _ IH|x y l|l1 l2 l3 _ IH1 _ IH2]; simpl.
  - constructor.
  - destruct (f x); [constructor|]; exact IH.
  - destruct (f x), (f y); try constructor; reflexivity.
  - etransitivity; eauto.
Qed.

Lemma filter_app_bool {A} (f : A -> bool) (l1 l2 : list A) :
  List.filter f (l1 ++ l2) = List.filter f l1 ++ List.filter f l2.
Proof.
  induction l1 as [|x l1 IH]; [reflexivity|]. simpl.
  destruct (f x); simpl; rewrite IH; reflexivity.
Qed.

Lemma median_row_nonempty (l : list result_row) (p : string * Z) :
  In p (flat_map median_row l) -> p.1 <> "".
Proof.
  intros (r & _ & Hp)%in_flat_map. unfold median_row in Hp.
  destruct (r_age_category r) as [c|], (r_time_seconds r) as [t|]; try contradiction.
  destruct ((t >? 0) && negb (String.eqb c "")) eqn:Hc; [|contradiction].
  destruct Hp as [<-|[]]. simpl. apply andb_true_iff in Hc as [_ Hc].
  apply negb_true_iff, String.eqb_neq in Hc. exact Hc.
Qed.

Lemma times_of_median_rows (l : list result_row) (c : string) :
  c <> "" ->
  times_of c (flat_map median_row l) =
  flat_map (fun r => match r_age_category r, r_time_seconds r with
                     | Some c', Some t => if String.eqb c' c && (t >? 0) then [t] else []
                     | _, _ => []
                     end) l.
Proof.
  intros Hc. unfold times_of. induction l as [|r l IH]; [reflexivity|].
  cbn [flat_map]. rewrite filter_app_bool, map_app, IH. f_equal.
  unfold median_row.
  destruct (r_age_category r) as [c'|], (r_time_seconds r) as [t|]; try reflexivity.
  destruct (String.eqb_spec c' "") as [->|Hne].
  - rewrite andb_false_r. simpl. destruct c; [contradiction|reflexivity].
  - rewrite andb_true_r.
    destruct (t >? 0); rewrite ?andb_false_r, ?andb_true_r; [|reflexivity].
    simpl. destruct (String.eqb c' c); reflexivity.
Qed.

(** The times grouped under [c] are those of [category_times], up to order;
    a category with a group is not empty. *)
Lemma group_times_category (d : db) (locationID : Z) (c : string) (ts : list Z) :
  group_times (median_rows d locationID) !! c = Some ts ->
  c <> "" /\ ts <> [] /\ Permutation ts (category_times d locationID c).
Proof.
  intros (-> & Hn)%group_times_lookup.
  assert (Hc : c <> "").
  { destruct (times_of c (median_rows d locationID)) as [|t ts] eqn:Ht; [contradiction|].
    assert (Hin : In t (times_of c (median_rows d locationID))) by (rewrite Ht; left; auto).
    unfold times_of in Hin. apply in_map_iff in Hin as (p & _ & Hp).
    apply filter_In in Hp as [Hp Hpc]. apply String.eqb_eq in Hpc as <-.
    unfold median_rows in Hp.
    apply (Permutation_in _ (merge_sort_Permutation category_le _)) in Hp.
    exact (median_row_nonempty _ _ Hp). }
  split; [exact Hc|]. split; [exact Hn|].
  unfold category_times. rewrite <- times_of_median_rows by exact Hc.
  unfold times_of, median_rows. apply Permutation_map, Permutation_filter_bool.
  apply merge_sort_Permutation.
Qed.

Lemma category_times_pos (d : db) (locationID : Z) (c : string) (t : Z) :
  In t (category_times d locationID c) -> 0 < t.
Proof.
  unfold category_times. intros (r & _ & Ht)%in_flat_map.
  destruct (r_age_category r), (r_time_seconds r) as [t'|]; try contradiction.
  destruct (String.eqb _ c && (t' >? 0)) eqn:Hb; [|contradiction].
  destruct Ht as [<-|[]]. apply andb_true_iff in Hb as [_ Hb]. lia.
Qed.

(** ** Medians (second copy of reports.go) *)

(** C3 (amended). For every category reported by
    [GetMedianTimesByAgeCategory] (second copy), with [sorted] the category's
    positive times at the location in ascending order and [n] their count:
    [Count] is [n], [n] is positive, and the reported median is the time
    [sorted[n/2]] when [n] is odd and the sum of the two central times halved
    and rounded down to whole seconds when [n] is even (times below 2^62
    seconds, so that the sum fits Go's [int]). *)
Theorem GetMedianTimes_median (d : db) (locationID : Z) (st : TimeStats) (sorted : list Z) :
  In st (ReportsV2.GetMedianTimesByAgeCategory d locationID) ->
  Forall (fun t => t < 2 ^ 62) (category_times d locationID (Category st)) ->
  Permutation sorted (category_times d locationID (Category st)) ->
  Sorted Z.le sorted ->
  let n := length sorted in
  Count st = Z.of_nat n /\ (0 < n)%nat /\
  ((n mod 2 = 1)%nat -> Median st = secondsToTime (nth (n / 2) sorted 0)) /\
  ((n mod 2 = 0)%nat ->
     Median st = secondsToTime ((nth (n / 2 - 1) sorted 0 + nth (n / 2) sorted 0) / 2)).
Proof.
  intros Hst Hr Hp Hs.
  apply In_median_stats in Hst as (c & ts & Hg & ->). cbn [Category Median Count] in *.
  destruct (group_times_category _ _ _ _ Hg) as (_ & Hn & Hperm).
  assert (E : merge_sort Z.le ts = sorted).
  { apply (Sorted_unique Z.le);
      [apply Sorted_merge_sort; intros x y; lia|exact Hs|].
    etransitivity; [apply merge_sort_Permutation|].
    etransitivity; [exact Hperm|symmetry; exact Hp]. }
  rewrite E.
  assert (Hlen : (0 < length sorted)%nat).
  { rewrite <- (Permutation_length (Permutation_trans Hperm (Permutation_sym Hp))).
    destruct ts; [contradiction|simpl; lia]. }
  set (n := length sorted) in *.
  assert (Hhalf : (n / 2 < n)%nat) by (apply Nat.div_lt; lia).
  assert (Hel : forall i, (i < n)%nat -> 0 < nth i sorted 0 < 4611686018427387904).
  { intros i Hi. assert (Hin : In (nth i sorted 0) sorted) by (apply nth_In; exact Hi).
    apply (Permutation_in _ Hp) in Hin. split; [exact (category_times_pos _ _ _ _ Hin)|].
    rewrite List.Forall_forall in Hr. specialize (Hr _ Hin).
    replace (2 ^ 62) with 4611686018427387904 in Hr by reflexivity. exact Hr. }
  split; [reflexivity|]. split; [exact Hlen|].
  unfold ReportsV2.median. fold n. split.
  - intros Hodd. rewrite Hodd, (proj2 (Nat.ltb_lt 0 n) Hlen).
    cbn [andb Nat.eqb]. reflexivity.
  - intros Heven. rewrite Heven, (proj2 (Nat.ltb_lt 0 n) Hlen).
    cbn [andb Nat.eqb]. f_equal.
    pose proof (Hel (n / 2 - 1)%nat ltac:(lia)) as Ha.
    pose proof (Hel (n / 2)%nat Hhalf) as Hb.
    rewrite wrap64_id by (rewrite in_int_range_val; lia).
    apply Z.quot_div_nonneg; lia.
Qed.

Lemma GetMedianTimes_median_witness :
  In even_stat (ReportsV2.GetMedianTimesByAgeCategory
                  (two_results_db "Runner A" "Runner B" "VM35-39" (Some 1180) (Some 1190)) 1) /\
  Median even_stat = secondsToTime ((1180 + 1190) / 2).
Proof.
  assert (Hin : In even_stat (ReportsV2.GetMedianTimesByAgeCategory
                  (two_results_db "Runner A" "Runner B" "VM35-39" (Some 1180) (Some 1190)) 1))
    by (vm_compute; left; reflexivity).
  split; [exact Hin|].
  destruct (GetMedianTimes_median
              (two_results_db "Runner A" "Runner B" "VM35-39" (Some 1180) (Some 1190)) 1
              even_stat [1180; 1190] Hin
              ltac:(apply List.Forall_forall; intros t Ht; vm_compute in Ht;
                    destruct Ht as [<-|[<-|[]]]; vm_compute; reflexivity)
              ltac:(vm_compute; reflexivity)
              ltac:(repeat (constructor || lia))) as (_ & _ & _ & Heven).
  exact (Heven eq_refl).
Defined.

(** C3. With times 1180 and 1191 the second copy reports 19:45, that is 1185
    seconds, while the arithmetic mean of the two is 1185.5. *)
Lemma GetMedianTimes_truncates_mean :
  map (fun st => (Category st, Median st, Count st))
      (ReportsV2.GetMedianTimesByAgeCategory
         (two_results_db "Runner A" "Runner B" "VM35-39" (Some 1180) (Some 1191)) 1) =
  [("VM35-39", "19:45", 2)]%string /\
  secondsToTime 1185 = "19:45" /\ 2 * 1185 <> 1180 + 1191.
Proof. vm_compute. split; [reflexivity|]. split; [reflexivity|discriminate]. Qed.

(** The first copy takes the upper of the two central times: 19:50 for 1180
    and 1190. *)
Example GetMedianTimes_v1_even :
  map Median (ReportsV1.GetMedianTimesByAgeCategory
                (two_results_db "Runner A" "Runner B" "VM35-39" (Some 1180) (Some 1190)) 1) =
  ["19:50"]%string.
Proof. vm_compute. reflexivity. Qed.

(** ** The category prefix of the report grouping *)

Lemma group_stats_None (times : list TimeStats) :
  ReportsV2.group_stats times = None <->
  exists st, In st times /\ (String.length (Category st) < 2)%nat.
Proof.
  induction times as [|st times IH]; simpl.
  - split; [discriminate|]. intros (st & [] & _).
  - unfold ReportsV2.prefix2.
    destruct (Nat.leb_spec 2 (String.length (Category st))) as [Hl|Hl].
    + destruct (ReportsV2.group_stats times) eqn:Hg; simpl.
      * split; [discriminate|]. intros (st' & [<-|Hin] & Hst'); [lia|].
        assert (Hn : Some l = None) by (apply IH; eauto). discriminate.
      * split; [|reflexivity]. intros _.
        destruct (proj1 IH eq_refl) as (st' & Hin & Hst'). eauto.
    + split; [|reflexivity]. intros _. exists st. auto.
Qed.

Lemma classify_categories_None (cats : list string) :
  ReportsV2.classify_categories cats = None <->
  exists c, In c cats /\ (String.length c < 2)%nat.
Proof.
  induction cats as [|cat cats IH]; simpl.
  - split; [discriminate|]. intros (c & [] & _).
  - unfold ReportsV2.prefix2.
    destruct (Nat.leb_spec 2 (String.length cat)) as [Hl|Hl].
    + destruct (ReportsV2.classify_categories cats) as [[[[j m] f] o]|] eqn:Hg; simpl.
      * split; [intros H; repeat (destruct (_ || _); try discriminate) |].
        intros (c & [<-|Hin] & Hc); [lia|].
        assert (Hn : Some (j, m, f, o) = None) by (apply IH; eauto). discriminate.
      * split; [|reflexivity]. intros _.
        destruct (proj1 IH eq_refl) as (c & Hin & Hc). eauto.
    + split; [|reflexivity]. intros _. exists cat. auto.
Qed.

Lemma category_times_nonempty (d : db) (locationID : Z) (c : string) :
  category_times d locationID c <> [] <->
  exists r t, In r (joined_results d locationID) /\ r_age_category r = Some c /\
              r_time_seconds r = Some t /\ 0 < t.
Proof.
  unfold category_times. split.
  - destruct (flat_map _ _) as [|t ts] eqn:Hf; [contradiction|]. intros _.
    assert (Hin : In t (t :: ts)) by (left; reflexivity). rewrite <- Hf in Hin.
    apply in_flat_map in Hin as (r & Hr & Ht).
    destruct (r_age_category r) as [c'|] eqn:Hc, (r_time_seconds r) as [t'|] eqn:Htm;
      try contradiction.
    destruct (String.eqb c' c && (t' >? 0)) eqn:Hb; [|contradiction].
    apply andb_true_iff in Hb as [Hb Hp]. apply String.eqb_eq in Hb as <-.
    exists r, t'. repeat split; auto. lia.
  - intros (r & t & Hr & Hc & Ht & Hp) Hn.
    assert (Hin : In t (flat_map (fun r => match r_age_category r, r_time_seconds r with
                     | Some c', Some t => if String.eqb c' c && (t >? 0) then [t] else []
                     | _, _ => []
                     end) (joined_results d locationID))).
    { apply in_flat_map. exists r. split; [exact Hr|]. rewrite Hc, Ht, String.eqb_refl.
      replace (t >? 0) with true by lia. left. reflexivity. }
    rewrite Hn in Hin. contradiction.
Qed.

Lemma median_stats_categories (median : list Z -> Z) (d : db) (locationID : Z) (c : string) :
  (exists st, In st (median_stats median d locationID) /\ Category st = c) <->
  c <> "" /\ category_times d locationID c <> [].
Proof.
  split.
  - intros (st & Hst & <-).
    apply In_median_stats in Hst as (c & ts & Hg & ->). cbn [Category].
    destruct (group_times_category _ _ _ _ Hg) as (Hc & Hn & Hp).
    split; [exact Hc|]. intros He. rewrite He in Hp.
    apply Permutation_sym, Permutation_nil in Hp. contradiction.
  - intros [Hc Hn].
    assert (Hp : Permutation (times_of c (median_rows d locationID))
                             (category_times d locationID c)).
    { unfold category_times. rewrite <- times_of_median_rows by exact Hc.
      unfold times_of, median_rows. apply Permutation_map, Permutation_filter_bool.
      apply merge_sort_Permutation. }
    assert (Ht : times_of c (median_rows d locationID) <> []).
    { intros He. rewrite He in Hp. apply Hn. apply Permutation_nil, Hp. }
    eexists. split; [apply In_median_stats; do 2 eexists; split;
                     [apply group_times_lookup; split; [reflexivity|exact Ht]|reflexivity]|].
    reflexivity.
Qed.

Lemma one_char_category (c : string) :
  ((String.length c < 2)%nat /\ c <> "") <-> String.length c = 1%nat.
Proof.
  destruct c as [|a [|b c]]; simpl; split.
  - intros [_ H]. contradiction.
  - discriminate.
  - intros _. reflexivity.
  - intros _. split; [lia|discriminate].
  - intros [H _]. lia.
  - discriminate.
Qed.

Lemma timed_one_char_iff (d : db) (locationID : Z) :
  has_timed_one_char_category d locationID <->
  exists st, In st (ReportsV2.GetMedianTimesByAgeCategory d locationID) /\
             (String.length (Category st) < 2)%nat.
Proof.
  unfold has_timed_one_char_category. split.
  - intros (r & c & t & Hr & Hc & Ht & Hp & Hl).
    assert (Hne : c <> "" /\ category_times d locationID c <> []).
    { split; [intros ->; discriminate|]. apply category_times_nonempty. eauto 7. }
    apply (median_stats_categories ReportsV2.median) in Hne as (st & Hst & <-).
    exists st. split; [exact Hst|]. lia.
  - intros (st & Hst & Hl).
    assert (Hc : exists st', In st' (median_stats ReportsV2.median d locationID) /\
                             Category st' = Category st) by eauto.
    apply median_stats_categories in Hc as [Hne Hn].
    apply category_times_nonempty in Hn as (r & t & Hr & Hc & Ht & Hp).
    exists r, (Category st), t. repeat split; auto.
    apply one_char_category. auto.
Qed.

(** C10 (amended). The grouping step of [PrintReports] for a location panics
    on [stat.Category[:2]] exactly when some result of that location has a
    positive time and a one-byte age category, and the grouping step of
    [PrintComparisonReport] on [cat[:2]] exactly when some result of either
    location does; one-byte categories of results without a positive time, or
    of other locations, never reach the slice. *)
Theorem report_grouping_panics_iff (d : db) (locationID1 locationID2 : Z) :
  (ReportsV2.PrintReports_grouping d locationID1 = None <->
   has_timed_one_char_category d locationID1) /\
  (ReportsV2.PrintComparisonReport_grouping d locationID1 locationID2 = None <->
   has_timed_one_char_category d locationID1 \/ has_timed_one_char_category d locationID2).
Proof.
  split.
  - unfold ReportsV2.PrintReports_grouping. rewrite group_stats_None, timed_one_char_iff.
    reflexivity.
  - unfold ReportsV2.PrintComparisonReport_grouping.
    rewrite !timed_one_char_iff.
    destruct (ReportsV2.classify_categories _) as [[[[j m] f] o]|] eqn:Hc; simpl.
    + split; [discriminate|]. intros H.
      assert (Hn : ReportsV2.classify_categories
                     (remove_dups (map Category (ReportsV2.GetMedianTimesByAgeCategory d locationID1) ++
                                   map Category (ReportsV2.GetMedianTimesByAgeCategory d locationID2)))
                   = None).
      { apply classify_categories_None.
        destruct H as [(st & Hst & Hl)|(st & Hst & Hl)]; exists (Category st);
          (split; [|exact Hl]); apply list_elem_of_In, elem_of_remove_dups, list_elem_of_In;
          apply in_or_app; [left|right]; apply in_map, Hst. }
      congruence.
    + split; [|reflexivity]. intros _.
      apply classify_categories_None in Hc as (c & Hin & Hl).
      apply list_elem_of_In, elem_of_remove_dups, list_elem_of_In, in_app_or in Hin.
      destruct Hin as [Hin|Hin]; apply in_map_iff in Hin as (st & <- & Hst); eauto.
Qed.

(** C10. A stored one-byte age category whose results have no time (NULL,
    as [StoreResults] writes for a zero time) never reaches the slice: both
    groupings complete. *)
Lemma report_grouping_untimed_one_char :
  ReportsV2.PrintReports_grouping (two_results_db "Runner A" "Runner B" "V" None None) 1
  = Some [] /\
  ReportsV2.PrintComparisonReport_grouping (two_results_db "Runner A" "Runner B" "V" None None) 1 1
  = Some ([], [], [], []).
Proof. vm_compute. split; reflexivity. Qed.

Example report_grouping_timed_one_char :
  ReportsV2.PrintReports_grouping (two_results_db "Runner A" "Runner B" "V" (Some 1200) None) 1
  = None.
Proof. vm_compute. reflexivity. Qed.

(** ** The ingest loop *)

(** C1 (divergence). A successful fetch is not always followed by the next
    event number after a pause: when [StoreEvent] fails, the iteration
    [continue]s before [eventID++] and before the sleep at the end of the
    body, so the same event number is fetched again at once, with the error
    counter reset to zero. Every other path that fetches again sleeps first
    (180 seconds after a 405, 5 seconds after another error or after a stored
    event), so this is the only retry without a pause; a [StoreEvent] that
    keeps failing makes the loop fetch the same page without end and without
    waiting. *)
Theorem loop_step_store_failure_no_pause (s : loop_state) :
  loop_step s FetchOk false =
    Continue {| eventID := eventID s; consecutiveErrors := 0 |} 0 /\
  (forall fetched ok s' sleepSeconds,
     loop_step s fetched ok = Continue s' sleepSeconds ->
     sleepSeconds = 0 -> fetched = FetchOk /\ ok = false) /\
  (forall n, run_loop s (repeat (FetchOk, false) n) =
             LoopRunning {| eventID := eventID s; consecutiveErrors := if n then consecutiveErrors s else 0 |}).
Proof.
  split; [reflexivity|]. split.
  - intros fetched ok s' t Hstep Ht. subst t.
    destruct fetched as [|code|]; [destruct ok| |]; simpl in Hstep.
    + injection Hstep as _ Ht. discriminate.
    + auto.
    + destruct (code =? 405); [injection Hstep as _ Ht; discriminate|].
      destruct (code =? 425); [discriminate|].
      unfold fetch_error_step in Hstep.
      destruct (_ >=? maxConsecutiveErrors); [discriminate|].
      injection Hstep as _ Ht. discriminate.
    + unfold fetch_error_step in Hstep.
      destruct (_ >=? maxConsecutiveErrors); [discriminate|].
      injection Hstep as _ Ht. discriminate.
  - intros n. destruct n as [|n]; [destruct s; reflexivity|].
    simpl. induction n as [|n IH]; [reflexivity|]. simpl. exact IH.
Qed.

(** C7. When the largest stored event number of a location is Go's largest
    [int], [eventID + 1] wraps around to the smallest one. *)
Lemma GetNextEventNumber_wraps :
  GetNextEventNumber last_int_event_db 1 = int_min.
Proof. vm_compute. reflexivity. Qed.

(** The older copy starts an empty location at 2. *)
Example getNextEventNumber_v0_empty : getNextEventNumber_v0 empty_db 1 = 2.
Proof. reflexivity. Qed.

(** ** The store: what one INSERT OR REPLACE does *)

Lemma fold_max_ge (l : list Z) (a : Z) :
  a <= fold_left Z.max l a /\ forall x, In x l -> x <= fold_left Z.max l a.
Proof.
  revert a. induction l as [|y l IH]; intros a; simpl.
  - split; [lia|tauto].
  - destruct (IH (Z.max a y)) as [H1 H2]. split; [lia|].
    intros x [<-|Hx]; [lia|auto].
Qed.

Lemma next_rowid_fresh (seq : Z) (ids : list Z) :
  seq < next_rowid seq ids /\ forall x, In x ids -> x < next_rowid seq ids.
Proof.
  unfold next_rowid. destruct (fold_max_ge ids seq) as [H1 H2].
  split; [lia|]. intros x Hx. specialize (H2 x Hx). lia.
Qed.

Lemma filter_nil_In {A} (f : A -> bool) (l : list A) :
  (forall x, In x l -> f x = false) -> List.filter f l = [].
Proof.
  induction l as [|x l IH]; intros H; simpl; [reflexivity|].
  rewrite (H x (or_introl eq_refl)). apply IH. intros y Hy. apply H. right. exact Hy.
Qed.

Lemma NoDup_flat_map_filter {A B} (g : A -> list B) (p : A -> bool) (l : list A) :
  NoDup (flat_map g l) -> NoDup (flat_map g (List.filter p l)).
Proof.
  induction l as [|x l IH]; simpl; [auto|].
  intros Hnd. apply NoDup_app in Hnd as (Hx & Hdis & Hl).
  destruct (p x); simpl; [|auto].
  apply NoDup_app. split; [exact Hx|]. split; [|auto].
  intros y Hy Hy'. apply (Hdis y Hy).
  apply list_elem_of_In in Hy'. apply list_elem_of_In.
  apply in_flat_map in Hy' as (z & Hz & Hyz). apply filter_In in Hz as [Hz _].
  apply in_flat_map. exists z. auto.
Qed.

Lemma NoDup_map_filter {A B} (g : A -> B) (p : A -> bool) (l : list A) :
  NoDup (map g l) -> NoDup (map g (List.filter p l)).
Proof.
  induction l as [|x l IH]; simpl; [auto|].
  intros Hnd. apply NoDup_cons in Hnd as [Hx Hl].
  destruct (p x); simpl; [|auto].
  apply NoDup_cons. split; [|auto].
  intros Hin. apply Hx. apply list_elem_of_In in Hin. apply list_elem_of_In.
  apply in_map_iff in Hin as (y & Hy & Hin). apply filter_In in Hin as [Hin _].
  apply in_map_iff. exists y. auto.
Qed.

(** [StoreEvent] is an insert-or-replace on the key (event number,
    location): afterwards the stored row is the only one with its key, under
    an id larger than every id used before; the other rows are exactly the
    earlier rows with another key; the locations and results tables are not
    touched. *)
Theorem StoreEvent_replaces (d : db) (ev : Event) :
  let '(d', id) := StoreEvent d ev in
  seq_events d < id /\ (forall e, In e (events d) -> ev_id e < id) /\
  List.filter (fun e => bool_decide (event_key e = (EventNumber ev, LocationID ev)))
              (events d') =
    [{| ev_id := id; ev_event_number := EventNumber ev; ev_location_id := LocationID ev;
        ev_date := Date ev; ev_url := URL ev |}] /\
  (forall e, In e (events d') -> ev_id e <> id ->
             In e (events d) /\ event_key e <> (EventNumber ev, LocationID ev)) /\
  (forall e, In e (events d) -> event_key e <> (EventNumber ev, LocationID ev) ->
             In e (events d')) /\
  locations d' = locations d /\ results d' = results d /\
  seq_events d' = id /\ seq_results d' = seq_results d.
Proof.
  unfold StoreEvent.
  destruct (next_rowid_fresh (seq_events d) (map ev_id (events d))) as [H1 H2].
  simpl. split; [exact H1|]. split; [intros e He; apply H2, in_map, He|].
  split; [|split; [|split]].
  - rewrite filter_app_bool, filter_nil_In; simpl.
    + rewrite bool_decide_eq_true_2 by reflexivity. reflexivity.
    + intros x Hx. apply filter_In in Hx as [_ Hk].
      apply bool_decide_eq_false_2. unfold event_key. intros [= Hn Hl].
      rewrite Hn, Hl, !Z.eqb_refl in Hk. discriminate.
  - intros e He Hid. apply in_app_or in He as [He|[<-|[]]]; [|simpl in Hid; contradiction].
    apply filter_In in He as [He Hk]. split; [exact He|].
    unfold event_key. intros [= Hn Hl]. rewrite Hn, Hl, !Z.eqb_refl in Hk. discriminate.
  - intros e He Hk. apply in_or_app. left. apply filter_In. split; [exact He|].
    unfold event_key in Hk.
    destruct (Z.eqb_spec (ev_event_number e) (EventNumber ev)),
             (Z.eqb_spec (ev_location_id e) (LocationID ev)); try reflexivity.
    exfalso. apply Hk. congruence.
  - repeat split.
Qed.

(** [StoreEvent] keeps the [UNIQUE(event_number, location_id)] constraint:
    if no two event rows share a key before, none do after. *)
Theorem StoreEvent_keeps_keys_unique (d : db) (ev : Event) :
  NoDup (map event_key (events d)) ->
  NoDup (map event_key (events (fst (StoreEvent d ev)))).
Proof.
  intros H. unfold StoreEvent; simpl. rewrite map_app. apply NoDup_app.
  split; [apply NoDup_map_filter, H|]. split; [|apply NoDup_singleton].
  intros x Hx Hx'. apply list_elem_of_In in Hx. apply list_elem_of_singleton in Hx'.
  apply in_map_iff in Hx as (e & <- & He). apply filter_In in He as [_ Hk].
  unfold event_key in Hx'. simpl in Hx'. injection Hx' as Hn Hl.
  rewrite Hn, Hl, !Z.eqb_refl in Hk. discriminate.
Qed.

Lemma StoreEvent_keeps_keys_unique_witness :
  NoDup (map event_key (events fixture_db)) /\
  NoDup (map event_key (events (fst (StoreEvent fixture_db (sample_event_at 2 1))))).
Proof.
  assert (H : NoDup (map event_key (events fixture_db)))
    by (apply (bool_decide_eq_true_1 (NoDup (map event_key (events fixture_db))));
        vm_compute; reflexivity).
  split; [exact H|]. apply StoreEvent_keeps_keys_unique, H.
Defined.

(** ** The next event number after a store *)

Lemma max_event_number_Some (L : Z) (es : list event_row) (m : Z) :
  (exists e, In e es /\ ev_location_id e = L /\ ev_event_number e = m) ->
  (forall e, In e es -> ev_location_id e = L -> ev_event_number e <= m) ->
  fold_left (max_event_step L) es None = Some m.
Proof.
  intros (e & He & Hl & Hn) Hall. pose proof (max_event_step_fold L es None) as Hf.
  destruct (fold_left (max_event_step L) es None) as [m'|].
  - destruct Hf as ([Hw|(e' & He' & Hl' & Hn')] & _ & Hall'); [discriminate|].
    specialize (Hall' e He Hl). specialize (Hall e' He' Hl'). f_equal. lia.
  - destruct Hf as [_ Hno]. exfalso. exact (Hno e He Hl).
Qed.

Lemma max_event_fold_ext (L : Z) (es1 es2 : list event_row) :
  (forall e, ev_location_id e = L -> In e es1 <-> In e es2) ->
  fold_left (max_event_step L) es1 None = fold_left (max_event_step L) es2 None.
Proof.
  intros Hext. pose proof (max_event_step_fold L es1 None) as Hf.
  destruct (fold_left (max_event_step L) es1 None) as [m|].
  - destruct Hf as ([Hw|(e & He & Hl & Hn)] & _ & Hall); [discriminate|].
    symmetry. apply max_event_number_Some.
    + exists e. split; [apply Hext; auto|auto].
    + intros e' He' Hl'. apply Hall; [apply Hext; auto|exact Hl'].
  - destruct Hf as [_ Hno]. pose proof (max_event_step_fold L es2 None) as Hf2.
    destruct (fold_left (max_event_step L) es2 None) as [m|]; [|reflexivity].
    destruct Hf2 as ([Hw|(e & He & Hl & _)] & _); [discriminate|].
    exfalso. apply (Hno e); [apply Hext; auto|exact Hl].
Qed.

(** Storing event [n] of a location moves that location's next event number
    to the larger of the old one and [n + 1] (numbers in Go's [int] range,
    [n] not negative), and leaves the next event number of every other
    location as it was. *)
Theorem GetNextEventNumber_StoreEvent (d : db) (ev : Event) :
  (forall e, In e (events d) -> ev_location_id e = LocationID ev ->
             int_min <= ev_event_number e < int_max) ->
  0 <= EventNumber ev < int_max ->
  GetNextEventNumber (fst (StoreEvent d ev)) (LocationID ev) =
    Z.max (GetNextEventNumber d (LocationID ev)) (EventNumber ev + 1) /\
  (forall L, L <> LocationID ev ->
             GetNextEventNumber (fst (StoreEvent d ev)) L = GetNextEventNumber d L).
Proof.
  intros Hr Hn. unfold GetNextEventNumber, max_event_number, StoreEvent; simpl.
  set (row := {| ev_id := next_rowid (seq_events d) (map ev_id (events d));
                 ev_event_number := EventNumber ev; ev_location_id := LocationID ev;
                 ev_date := Date ev; ev_url := URL ev |}).
  set (kp := fun e : event_row => negb ((ev_event_number e =? EventNumber ev) &&
                                        (ev_location_id e =? LocationID ev))).
  split.
  - pose proof (max_event_step_fold (LocationID ev) (events d) None) as Hf.
    destruct (fold_left (max_event_step (LocationID ev)) (events d) None) as [m|].
    + destruct Hf as ([Hw|(e0 & He0 & Hl0 & Hn0)] & _ & Hall); [discriminate|].
      pose proof (Hr e0 He0 Hl0) as Hr0.
      rewrite (max_event_number_Some _ _ (Z.max m (EventNumber ev))).
      * unfold int_min, int_max in *. rewrite !wrap64_id
          by (rewrite in_int_range_val; simpl in *; lia). lia.
      * destruct (Z.le_gt_cases (EventNumber ev) m) as [Hle|Hgt].
        -- destruct (kp e0) eqn:Hk.
           ++ exists e0. split; [apply in_or_app; left; apply filter_In; auto|].
              split; [exact Hl0|lia].
           ++ exists row. split; [apply in_or_app; right; left; reflexivity|].
              unfold kp in Hk. apply negb_false_iff, andb_true_iff in Hk as [Hk _].
              apply Z.eqb_eq in Hk. simpl. split; [reflexivity|lia].
        -- exists row. split; [apply in_or_app; right; left; reflexivity|].
           simpl. split; [reflexivity|lia].
      * intros e He Hl. apply in_app_or in He as [He|[<-|[]]].
        -- apply filter_In in He as [He _]. specialize (Hall e He Hl). lia.
        -- simpl. lia.
    + destruct Hf as [_ Hno].
      rewrite (max_event_number_Some _ _ (EventNumber ev)).
      * unfold int_min, int_max in *. rewrite !wrap64_id
          by (rewrite in_int_range_val; simpl in *; lia). lia.
      * exists row. split; [apply in_or_app; right; left; reflexivity|auto].
      * intros e He Hl. apply in_app_or in He as [He|[<-|[]]].
        -- apply filter_In in He as [He _]. exfalso. exact (Hno e He Hl).
        -- simpl. lia.
  - intros L HL. rewrite (max_event_fold_ext L _ (events d)); [reflexivity|].
    intros e Hl. rewrite in_app_iff, filter_In. simpl.
    split.
    + intros [[He _]|[<-|[]]]; [exact He|]. simpl in Hl. congruence.
    + intros He. left. split; [exact He|].
      unfold kp. destruct (Z.eqb_spec (ev_location_id e) (LocationID ev)); [congruence|].
      rewrite andb_false_r. reflexivity.
Qed.

Lemma GetNextEventNumber_StoreEvent_witness :
  GetNextEventNumber (fst (StoreEvent fixture_db (sample_event_at 5 1))) 1 = 6 /\
  GetNextEventNumber (fst (StoreEvent fixture_db (sample_event_at 5 1))) 2 =
    GetNextEventNumber fixture_db 2.
Proof.
  destruct (GetNextEventNumber_StoreEvent fixture_db (sample_event_at 5 1)) as [H1 H2].
  - intros e He _. vm_compute in He. unfold int_min, int_max; simpl.
    destruct He as [<-|[<-|[<-|[]]]]; simpl; lia.
  - unfold int_min, int_max; simpl; lia.
  - split; [exact (eq_trans H1 ltac:(vm_compute; reflexivity))|apply H2; discriminate].
Defined.

(** ** The store: StoreResults *)

Lemma filter_filter_weaker {A} (q k : A -> bool) (l : list A) :
  (forall x, q x = true -> k x = true) ->
  List.filter q (List.filter k l) = List.filter q l.
Proof.
  intros Hqk. induction l as [|x l IH]; simpl; [reflexivity|].
  destruct (q x) eqn:Hq.
  - rewrite (Hqk x Hq). simpl. rewrite Hq, IH. reflexivity.
  - destruct (k x); simpl; [rewrite Hq|]; exact IH.
Qed.

Lemma StoreResults_cons (d : db) (r : Result) (rs : list Result) (eventID : Z) :
  StoreResults d (r :: rs) eventID = StoreResults (store_result eventID d r) rs eventID.
Proof. reflexivity. Qed.

(** [StoreResults] inserts into the results table only: the events, the
    locations and the events' id counter are unchanged, and the rows of
    every other event (and those with a NULL [event_id]) are exactly the
    rows of before, in the same order. *)
Theorem StoreResults_frame (d : db) (rs : list Result) (eventID : Z) :
  let d' := StoreResults d rs eventID in
  events d' = events d /\ locations d' = locations d /\ seq_events d' = seq_events d /\
  List.filter (fun r => negb (opt_Z_eqb (r_event_id r) (Some eventID))) (results d') =
  List.filter (fun r => negb (opt_Z_eqb (r_event_id r) (Some eventID))) (results d).
Proof.
  revert d. induction rs as [|x rs IH]; intros d; [repeat split|].
  rewrite StoreResults_cons. simpl.
  destruct (IH (store_result eventID d x)) as (H1 & H2 & H3 & H4).
  rewrite H1, H2, H3, H4. simpl. repeat split.
  rewrite filter_app_bool. simpl. rewrite Z.eqb_refl, app_nil_r.
  apply filter_filter_weaker. intros r Hq. apply negb_true_iff in Hq.
  rewrite Hq, andb_false_r. reflexivity.
Qed.

(** [StoreResults] keeps the [UNIQUE(position, event_id)] constraint: if no
    two rows with an [event_id] share a key before, none do after. *)
Theorem StoreResults_keeps_keys_unique (d : db) (rs : list Result) (eventID : Z) :
  NoDup (result_keys d) -> NoDup (result_keys (StoreResults d rs eventID)).
Proof.
  revert d. induction rs as [|x rs IH]; intros d Hnd; [exact Hnd|].
  rewrite StoreResults_cons. apply IH.
  unfold result_keys, store_result; simpl. rewrite flat_map_app. simpl.
  apply NoDup_app. split; [apply NoDup_flat_map_filter, Hnd|].
  split; [|apply NoDup_singleton].
  intros k Hk Hk'. apply list_elem_of_singleton in Hk' as ->.
  apply list_elem_of_In, in_flat_map in Hk as (r & Hr & Hk).
  apply filter_In in Hr as [_ Hkp].
  destruct (r_event_id r) as [e|] eqn:He; [|destruct Hk].
  destruct Hk as [[= Hp He']|[]]. subst e.
  rewrite Hp, Z.eqb_refl in Hkp. simpl in Hkp. rewrite Z.eqb_refl in Hkp. discriminate.
Qed.

Lemma StoreResults_keeps_keys_unique_witness :
  NoDup (result_keys fixture_db) /\
  NoDup (result_keys (StoreResults fixture_db
                        [result_at 1 "Runner E" 1250; result_at 1 "Runner F" 1260] 3)).
Proof.
  assert (H : NoDup (result_keys fixture_db))
    by (apply (bool_decide_eq_true_1 (NoDup (result_keys fixture_db)));
        vm_compute; reflexivity).
  split; [exact H|]. apply StoreResults_keeps_keys_unique, H.
Defined.

Lemma store_result_key_self (eventID : Z) (d : db) (r : Result) :
  List.filter (fun row => (r_position row =? Position r) &&
                          opt_Z_eqb (r_event_id row) (Some eventID))
              (results (store_result eventID d r)) =
  [{| r_id := next_rowid (seq_results d) (map r_id (results d));
      r_position := Position r; r_name := Name r;
      r_time_seconds := if TimeSeconds r >? 0 then Some (TimeSeconds r) else None;
      r_age_grade := Some (AgeGrade r); r_age_category := Some (AgeCategory r);
      r_note := Some (Note r); r_total_runs := Some (TotalRuns r);
      r_event_id := Some eventID |}].
Proof.
  unfold store_result; simpl. rewrite filter_app_bool, filter_nil_In.
  - simpl. rewrite !Z.eqb_refl. reflexivity.
  - intros x Hx. apply filter_In in Hx as [_ Hk]. apply negb_true_iff in Hk. exact Hk.
Qed.

Lemma store_result_key_other (eventID : Z) (d : db) (r' : Result) (P : Z) :
  Position r' <> P ->
  List.filter (fun row => (r_position row =? P) && opt_Z_eqb (r_event_id row) (Some eventID))
              (results (store_result eventID d r')) =
  List.filter (fun row => (r_position row =? P) && opt_Z_eqb (r_event_id row) (Some eventID))
              (results d).
Proof.
  intros HP. unfold store_result; simpl. rewrite filter_app_bool. simpl.
  destruct (Z.eqb_spec (Position r') P) as [|_]; [contradiction|]. simpl.
  rewrite app_nil_r. apply filter_filter_weaker.
  intros x Hx. apply andb_true_iff in Hx as [Hx _]. apply Z.eqb_eq in Hx.
  destruct (Z.eqb_spec (r_position x) (Position r')); [congruence|reflexivity].
Qed.

(** The last result stored at a position wins: after [StoreResults], the
    (position, event) key of a result that no later result of the list
    repeats is held by exactly one row, carrying that result's fields, a
    time of zero or less becoming NULL. *)
Theorem StoreResults_last_write (d : db) (rs1 : list Result) (r : Result)
    (rs2 : list Result) (eventID : Z) :
  Forall (fun r' => Position r' <> Position r) rs2 ->
  exists row,
    List.filter (fun row => (r_position row =? Position r) &&
                            opt_Z_eqb (r_event_id row) (Some eventID))
                (results (StoreResults d (rs1 ++ r :: rs2) eventID)) = [row] /\
    r_name row = Name r /\
    r_time_seconds row = (if TimeSeconds r >? 0 then Some (TimeSeconds r) else None) /\
    r_age_grade row = Some (AgeGrade r) /\ r_age_category row = Some (AgeCategory r) /\
    r_note row = Some (Note r) /\ r_total_runs row = Some (TotalRuns r).
Proof.
  intros Hrs2. unfold StoreResults. rewrite fold_left_app. simpl.
  set (d1 := fold_left (store_result eventID) rs1 d).
  assert (Hgen : forall l d2, Forall (fun r' => Position r' <> Position r) l ->
    List.filter (fun row => (r_position row =? Position r) &&
                            opt_Z_eqb (r_event_id row) (Some eventID))
                (results (fold_left (store_result eventID) l d2)) =
    List.filter (fun row => (r_position row =? Position r) &&
                            opt_Z_eqb (r_event_id row) (Some eventID)) (results d2)).
  { induction l as [|x l IH]; intros d2 Hl; [reflexivity|].
    inversion Hl as [|? ? Hx Hl']; subst. simpl. rewrite IH by exact Hl'.
    apply store_result_key_other, Hx. }
  rewrite Hgen by exact Hrs2. rewrite store_result_key_self.
  eexists. split; [reflexivity|]. repeat split.
Qed.

Lemma StoreResults_last_write_witness :
  Forall (fun r' => Position r' <> 2) [result_at 3 "Runner G" 1270] /\
  exists row,
    List.filter (fun row => (r_position row =? 2) && opt_Z_eqb (r_event_id row) (Some 3))
      (results (StoreResults fixture_db
                  ([result_at 2 "Runner E" 1250] ++
                   result_at 2 "Runner F" 0 :: [result_at 3 "Runner G" 1270]) 3)) = [row] /\
    r_name row = "Runner F" /\ r_time_seconds row = None /\
    r_age_grade row = Some "50.00%" /\ r_age_category row = Some "SM25-29" /\
    r_note row = Some "" /\ r_total_runs row = Some 1.
Proof.
  assert (H : Forall (fun r' => Position r' <> 2) [result_at 3 "Runner G" 1270])
    by (constructor; [simpl; lia|constructor]).
  split; [exact H|].
  exact (StoreResults_last_write fixture_db [result_at 2 "Runner E" 1250]
           (result_at 2 "Runner F" 0) [result_at 3 "Runner G" 1270] 3 H).
Defined.

(** ** Clearing a location, then reading it back *)

Lemma flat_map_nil_In {A B} (f : A -> list B) (l : list A) :
  (forall x, In x l -> f x = []) -> flat_map f l = [].
Proof.
  induction l as [|x l IH]; intros H; simpl; [reflexivity|].
  rewrite (H x (or_introl eq_refl)). apply IH. intros y Hy. apply H. right. exact Hy.
Qed.

Lemma flat_map_filter_drop {A B} (f : A -> list B) (p : A -> bool) (l : list A) :
  (forall x, In x l -> p x = false -> f x = []) ->
  flat_map f (List.filter p l) = flat_map f l.
Proof.
  induction l as [|x l IH]; intros H; simpl; [reflexivity|].
  assert (IH' := IH (fun y Hy => H y (or_intror Hy))).
  destruct (p x) eqn:Hp; simpl; rewrite IH'; [reflexivity|].
  rewrite (H x (or_introl eq_refl) Hp). reflexivity.
Qed.

Lemma NoDup_map_In_inj {A B} (f : A -> B) (l : list A) (a b : A) :
  NoDup (map f l) -> In a l -> In b l -> f a = f b -> a = b.
Proof.
  induction l as [|x l IH]; simpl; [tauto|].
  intros Hnd Ha Hb Hab. apply NoDup_cons in Hnd as [Hx Hl].
  destruct Ha as [<-|Ha], Hb as [<-|Hb]; auto.
  - exfalso. apply Hx. apply list_elem_of_In. rewrite Hab. apply in_map, Hb.
  - exfalso. apply Hx. apply list_elem_of_In. rewrite <- Hab. apply in_map, Ha.
Qed.

(** With the location found, [ClearLocationData] either fails and keeps the
    tables, or succeeds with the three deletions applied. *)
Lemma ClearLocationData_found (f : clear_faults) (d : db) (urlSlug : string) (L : Z) :
  find_location d urlSlug = Some L ->
  (fst (ClearLocationData f d urlSlug) = Ok tt /\
   snd (ClearLocationData f d urlSlug) =
     delete_location_row L (delete_location_events L (delete_location_results L d))) \/
  (is_err (fst (ClearLocationData f d urlSlug)) = true /\
   snd (ClearLocationData f d urlSlug) = d).
Proof.
  intros HL. unfold ClearLocationData. rewrite HL.
  destruct f as [f1 f2 f3 f4 f5 f6]; simpl.
  destruct f1, f2, f3, f4, f5, f6; simpl; auto.
Qed.

Lemma joined_results_no_event (d : db) (L : Z) :
  (forall e, In e (events d) -> ev_location_id e <> L) -> joined_results d L = [].
Proof.
  intros H. unfold joined_results. apply flat_map_nil_In. intros r _.
  apply flat_map_nil_In. intros e He.
  destruct (Z.eqb_spec (ev_location_id e) L) as [Hl|_]; [exfalso; exact (H e He Hl)|].
  rewrite andb_false_r. reflexivity.
Qed.

(** After a successful [ClearLocationData], the location reads as new:
    no result joins it, ingestion would start again at event 1, and the top
    participants, the runner count and both copies of the median report are
    empty. *)
Theorem ClearLocationData_resets_location (f : clear_faults) (d : db) (urlSlug : string)
    (L : Z) :
  find_location d urlSlug = Some L ->
  fst (ClearLocationData f d urlSlug) = Ok tt ->
  let d' := snd (ClearLocationData f d urlSlug) in
  joined_results d' L = [] /\ GetNextEventNumber d' L = 1 /\
  (forall limit, GetTopParticipants d' L limit = []) /\ total_runners d' L = 0 /\
  ReportsV1.GetMedianTimesByAgeCategory d' L = [] /\
  ReportsV2.GetMedianTimesByAgeCategory d' L = [].
Proof.
  intros HL Hok.
  destruct (ClearLocationData_found f d urlSlug L HL) as [[_ ->]|[Herr _]];
    [|rewrite Hok in Herr; discriminate].
  set (d' := delete_location_row L (delete_location_events L (delete_location_results L d))).
  assert (Hno : forall e, In e (events d') -> ev_location_id e <> L).
  { intros e He. simpl in He. apply filter_In in He as [_ Hk].
    apply negb_true_iff, Z.eqb_neq in Hk. exact Hk. }
  pose proof (joined_results_no_event d' L Hno) as Hj.
  split; [exact Hj|]. split.
  - unfold GetNextEventNumber, max_event_number.
    rewrite (max_event_fold_ext L (events d') []); [reflexivity|].
    intros e Hl. split; [intros He; exact (Hno e He Hl)|intros []].
  - split; [|split; [|split]].
    + intros limit. unfold GetTopParticipants. rewrite Hj. simpl.
      unfold sql_limit. destruct (limit <? 0); [reflexivity|].
      change (merge_sort run_count_ge (name_counts [])) with (@nil (string * Z)).
      rewrite take_nil. reflexivity.
    + unfold total_runners. rewrite Hj. reflexivity.
    + unfold ReportsV1.GetMedianTimesByAgeCategory, median_stats, median_rows.
      rewrite Hj. reflexivity.
    + unfold ReportsV2.GetMedianTimesByAgeCategory, median_stats, median_rows.
      rewrite Hj. reflexivity.
Qed.

Lemma ClearLocationData_resets_location_witness :
  find_location fixture_db "test-park-1" = Some 1 /\
  fst (ClearLocationData no_faults fixture_db "test-park-1") = Ok tt /\
  GetNextEventNumber (snd (ClearLocationData no_faults fixture_db "test-park-1")) 1 = 1.
Proof.
  assert (H1 : find_location fixture_db "test-park-1" = Some 1) by reflexivity.
  assert (H2 : fst (ClearLocationData no_faults fixture_db "test-park-1") = Ok tt)
    by reflexivity.
  split; [exact H1|]. split; [exact H2|].
  exact (proj1 (proj2 (ClearLocationData_resets_location no_faults fixture_db
                         "test-park-1" 1 H1 H2))).
Defined.

Lemma flat_map_ext_In {A B} (f g : A -> list B) (l : list A) :
  (forall x, In x l -> f x = g x) -> flat_map f l = flat_map g l.
Proof.
  induction l as [|x l IH]; intros H; simpl; [reflexivity|].
  rewrite (H x (or_introl eq_refl)), IH by (intros y Hy; apply H; right; exact Hy).
  reflexivity.
Qed.

(** Clearing one location leaves every other location as it was, provided
    the event ids are distinct (as AUTOINCREMENT makes them): the results
    joined to it, hence its top participants and runner count, and its next
    event number are unchanged, whether the call succeeds or fails. *)
Theorem ClearLocationData_keeps_other_locations (f : clear_faults) (d : db)
    (urlSlug : string) (L L' : Z) :
  find_location d urlSlug = Some L ->
  NoDup (map ev_id (events d)) ->
  L' <> L ->
  let d' := snd (ClearLocationData f d urlSlug) in
  joined_results d' L' = joined_results d L' /\
  (forall limit, GetTopParticipants d' L' limit = GetTopParticipants d L' limit) /\
  total_runners d' L' = total_runners d L' /\
  GetNextEventNumber d' L' = GetNextEventNumber d L'.
Proof.
  intros HL Hnd HLL'.
  assert (Hj : joined_results (snd (ClearLocationData f d urlSlug)) L' =
               joined_results d L').
  { destruct (ClearLocationData_found f d urlSlug L HL) as [[_ ->]|[_ ->]];
      [|reflexivity].
    unfold joined_results; simpl.
    rewrite (flat_map_ext_In _ (fun r => flat_map (fun e =>
        if opt_Z_eqb (r_event_id r) (Some (ev_id e)) && (ev_location_id e =? L')
        then [r] else []) (events d))).
    - apply flat_map_filter_drop. intros r _ Hk.
      destruct (r_event_id r) as [x|] eqn:Hx; [|discriminate].
      apply negb_false_iff, existsb_exists in Hk as (y & Hy & Hxy).
      apply Z.eqb_eq in Hxy as <-.
      apply in_map_iff in Hy as (e0 & Hid0 & He0). apply filter_In in He0 as [He0 Hl0].
      apply Z.eqb_eq in Hl0.
      apply flat_map_nil_In. intros e He. simpl.
      destruct (Z.eqb_spec x (ev_id e)) as [Hxe|]; [|reflexivity].
      assert (e = e0) as -> by (apply (NoDup_map_In_inj ev_id (events d)); auto; congruence).
      destruct (Z.eqb_spec (ev_location_id e0) L'); [congruence|reflexivity].
    - intros r _. apply flat_map_filter_drop. intros e _ Hk.
      apply negb_false_iff, Z.eqb_eq in Hk.
      destruct (Z.eqb_spec (ev_location_id e) L'); [congruence|].
      rewrite andb_false_r. reflexivity. }
  split; [exact Hj|]. split; [|split].
  - intros limit. unfold GetTopParticipants. rewrite Hj. reflexivity.
  - unfold total_runners. rewrite Hj. reflexivity.
  - destruct (ClearLocationData_found f d urlSlug L HL) as [[_ ->]|[_ ->]];
      [|reflexivity].
    unfold GetNextEventNumber, max_event_number.
    rewrite (max_event_fold_ext L' _ (events d)); [reflexivity|].
    intros e Hl. simpl. rewrite filter_In.
    split; [intros [He _]; exact He|intros He; split; [exact He|]].
    destruct (Z.eqb_spec (ev_location_id e) L); [congruence|reflexivity].
Qed.

Lemma ClearLocationData_keeps_other_locations_witness :
  find_location fixture_db "test-park-1" = Some 1 /\
  NoDup (map ev_id (events fixture_db)) /\
  total_runners (snd (ClearLocationData no_faults fixture_db "test-park-1")) 2 =
    total_runners fixture_db 2.
Proof.
  assert (H1 : find_location fixture_db "test-park-1" = Some 1) by reflexivity.
  assert (H2 : NoDup (map ev_id (events fixture_db)))
    by (apply (bool_decide_eq_true_1 (NoDup (map ev_id (events fixture_db))));
        vm_compute; reflexivity).
  split; [exact H1|]. split; [exact H2|].
  exact (proj1 (proj2 (proj2 (ClearLocationData_keeps_other_locations no_faults fixture_db
                                "test-park-1" 1 2 H1 H2 ltac:(discriminate))))).
Defined.

(** ** Go's [%d] read back by [strconv.Atoi] *)

Lemma string_of_uint_acc (u : Decimal.uint) (acc : positive) :
  decimal_value (Z.pos acc) (list_ascii_of_string (NilEmpty.string_of_uint u)) =
  Z.pos (Pos.of_uint_acc u acc).
Proof.
  revert acc. induction u; intros acc; [reflexivity|..];
    cbn [NilEmpty.string_of_uint list_ascii_of_string Pos.of_uint_acc];
    rewrite decimal_value_cons, <- IHu; f_equal;
    lazymatch goal with
    | |- context [digit_value ?c] =>
        let v := eval vm_compute in (digit_value c) in change (digit_value c) with v
    end; lia.
Qed.

Lemma string_of_uint_value (u : Decimal.uint) :
  decimal_value 0 (list_ascii_of_string (NilEmpty.string_of_uint u)) = Z.of_uint u.
Proof.
  unfold Z.of_uint.
  induction u; [reflexivity|..];
    cbn [NilEmpty.string_of_uint list_ascii_of_string Pos.of_uint];
    rewrite decimal_value_cons; try exact IHu;
    cbn [Z.of_N]; rewrite <- string_of_uint_acc; f_equal; vm_compute; reflexivity.
Qed.

Lemma string_of_uint_digits (u : Decimal.uint) :
  forallb is_dec_digit (list_ascii_of_string (NilEmpty.string_of_uint u)) = true.
Proof.
  induction u; [reflexivity|..];
    cbn [NilEmpty.string_of_uint list_ascii_of_string forallb]; rewrite IHu;
    reflexivity.
Qed.

Lemma string_of_uint_segment (u : Decimal.uint) :
  u <> Decimal.Nil ->
  decimal_digits (list_ascii_of_string (NilZero.string_of_uint u)) = Some (Z.of_uint u).
Proof.
  intros Hu.
  assert (Hs : NilZero.string_of_uint u = NilEmpty.string_of_uint u)
    by (destruct u; [contradiction|reflexivity..]).
  rewrite Hs. unfold decimal_digits.
  rewrite <- string_of_uint_value.
  pose proof (string_of_uint_digits u) as Hd.
  destruct (list_ascii_of_string (NilEmpty.string_of_uint u)) as [|c cs] eqn:E.
  - destruct u; [contradiction|discriminate..].
  - rewrite Hd. reflexivity.
Qed.

(** [fmt.Sprintf("%d", z)] of a non-negative [z] is a decimal digit string
    with the value [z]. *)
Lemma fmt_d_segment (z : Z) : 0 <= z -> nonneg_int_segment (fmt_d z) z.
Proof.
  intros Hz. unfold nonneg_int_segment, fmt_d.
  destruct z as [|p|p]; [reflexivity| |lia].
  pose proof (DecimalZ.of_to (Z.pos p)) as Hof.
  change (Z.of_uint (Pos.to_uint p) = Z.pos p) in Hof.
  change (decimal_digits (list_ascii_of_string (NilZero.string_of_uint (Pos.to_uint p))) =
          Some (Z.pos p)).
  rewrite string_of_uint_segment, Hof; [reflexivity|].
  intros E. rewrite E in Hof. discriminate.
Qed.

(** [fmt.Sprintf("%02d", z)] of a non-negative [z] as well. *)
Lemma fmt_02d_segment (z : Z) : 0 <= z -> nonneg_int_segment (fmt_02d z) z.
Proof.
  intros Hz. pose proof (fmt_d_segment z Hz) as Hd. unfold fmt_02d.
  destruct ((0 <=? z) && (z <? 10)); [|exact Hd].
  unfold nonneg_int_segment in *. unfold decimal_digits in *.
  destruct (list_ascii_of_string (fmt_d z)) as [|c cs] eqn:E; [discriminate|].
  destruct (forallb is_dec_digit (c :: cs)) eqn:F; [|discriminate].
  change (list_ascii_of_string ("0" ++ fmt_d z)) with
    ("0"%char :: list_ascii_of_string (fmt_d z)).
  rewrite E.
  change (forallb is_dec_digit ("0"%char :: c :: cs)) with
    (is_dec_digit "0" && forallb is_dec_digit (c :: cs)).
  rewrite F. exact Hd.
Qed.

Lemma split_three a b c va vb vc :
  nonneg_int_segment a va -> nonneg_int_segment b vb -> nonneg_int_segment c vc ->
  split_on ":" (a ++ ":" ++ b ++ ":" ++ c) = [a; b; c].
Proof.
  intros Ha Hb Hc.
  change (a ++ ":" ++ b ++ ":" ++ c)%string with (a ++ String ":" (b ++ String ":" c))%string.
  rewrite split_on_app by (eapply digits_no_colon, Ha).
  rewrite split_on_app by (eapply digits_no_colon, Hb).
  rewrite split_on_no_sep by (eapply digits_no_colon, Hc). reflexivity.
Qed.

(** [timeToSeconds] reads back what [secondsToTime] prints: for every
    number of seconds from 0 to Go's largest [int], formatting it as
    [H:MM:SS] (or [M:SS] under an hour, "Unknown" for 0) and parsing the
    text gives the same number. *)
Theorem secondsToTime_round_trip (s : Z) :
  0 <= s <= int_max -> timeToSeconds (secondsToTime s) = Ok s.
Proof.
  intros Hs.
  assert (Hs' : 0 <= s <= 9223372036854775807) by exact Hs.
  unfold secondsToTime. destruct (Z.eqb_spec s 0) as [->|Hs0]; [reflexivity|].
  rewrite (Z.quot_div_nonneg s 3600), (Z.rem_mod_nonneg s 3600), (Z.rem_mod_nonneg s 60)
    by lia.
  rewrite (Z.quot_div_nonneg (s mod 3600) 60)
    by (Z.to_euclidean_division_equations; lia).
  assert (Hdm : s = s / 3600 * 3600 + s mod 3600 / 60 * 60 + s mod 60 /\
                0 <= s mod 3600 / 60 < 60 /\ 0 <= s mod 60 < 60 /\ 0 <= s / 3600)
    by (Z.to_euclidean_division_equations; lia).
  remember (s / 3600) as h eqn:Eh. remember (s mod 3600 / 60) as m eqn:Em.
  remember (s mod 60) as sec eqn:Esec. clear Eh Em Esec.
  assert (Hr : forall z, 0 <= z <= s -> in_int_range z)
    by (intros z Hz; rewrite in_int_range_val; lia).
  destruct (Z.gtb_spec h 0) as [Hh|Hh].
  - pose proof (fmt_d_segment h ltac:(lia)) as H1.
    pose proof (fmt_02d_segment m ltac:(lia)) as H2.
    pose proof (fmt_02d_segment sec ltac:(lia)) as H3.
    unfold timeToSeconds.
    rewrite not_empty_or_unknown by (rewrite (split_three _ _ _ _ _ _ H1 H2 H3); simpl; lia).
    rewrite (split_three _ _ _ _ _ _ H1 H2 H3). atoi_segments.
    rewrite (wrap64_id (h * 3600)), (wrap64_id (m * 60)), (wrap64_id (h * 3600 + m * 60))
      by (apply Hr; lia).
    rewrite wrap64_id by (apply Hr; lia). f_equal. lia.
  - pose proof (fmt_d_segment m ltac:(lia)) as H2.
    pose proof (fmt_02d_segment sec ltac:(lia)) as H3.
    unfold timeToSeconds.
    rewrite not_empty_or_unknown by (rewrite (split_two _ _ _ _ H2 H3); simpl; lia).
    rewrite (split_two _ _ _ _ H2 H3). atoi_segments.
    rewrite (wrap64_id (m * 60)) by (apply Hr; lia).
    rewrite wrap64_id by (apply Hr; lia). f_equal. lia.
Qed.

Lemma secondsToTime_round_trip_witness :
  secondsToTime 5025 = "1:23:45"%string /\ timeToSeconds (secondsToTime 5025) = Ok 5025.
Proof.
  split; [vm_compute; reflexivity|].
  apply secondsToTime_round_trip. unfold int_max; simpl; lia.
Defined.

(** ** parseEventDate *)

Lemma list_ascii_of_string_app (s1 s2 : string) :
  list_ascii_of_string (s1 ++ s2) = list_ascii_of_string s1 ++ list_ascii_of_string s2.
Proof. induction s1 as [|c s1 IH]; simpl; [reflexivity|]. rewrite IH. reflexivity. Qed.

Lemma length_list_ascii_of_string (s : string) :
  length (list_ascii_of_string s) = String.length s.
Proof. induction s as [|c s IH]; simpl; [reflexivity|]. rewrite IH. reflexivity. Qed.

Lemma segment_chars (s : string) (v : Z) :
  nonneg_int_segment s v ->
  list_ascii_of_string s <> [] /\ forallb is_dec_digit (list_ascii_of_string s) = true /\
  decimal_value 0 (list_ascii_of_string s) = v.
Proof.
  unfold nonneg_int_segment, decimal_digits.
  destruct (list_ascii_of_string s) as [|c cs]; [discriminate|].
  destruct (forallb is_dec_digit (c :: cs)) eqn:F; [|discriminate].
  intros [= <-]. split; [discriminate|]. auto.
Qed.

(** [getnum] on one or two digits followed by a slash. *)
Lemma getnum_segment (s : string) (v : Z) (rest : list ascii) (fixed : bool) :
  nonneg_int_segment s v -> (String.length s = 1 \/ String.length s = 2)%nat ->
  getnum (list_ascii_of_string s ++ "/"%char :: rest) fixed =
  if fixed && (String.length s =? 1)%nat then None else Some (v, "/"%char :: rest).
Proof.
  intros Hs Hl. apply segment_chars in Hs as (_ & Hd & Hv).
  rewrite <- length_list_ascii_of_string in *.
  destruct (list_ascii_of_string s) as [|c0 [|c1 [|c2 l]]]; simpl in Hl; try lia.
  - simpl in Hd. rewrite andb_true_r in Hd. subst v.
    simpl. rewrite Hd. simpl. destruct fixed; reflexivity.
  - simpl in Hd. rewrite andb_true_r in Hd. apply andb_true_iff in Hd as [H0 H1].
    subst v. simpl. rewrite H0, H1. simpl. rewrite andb_false_r. reflexivity.
Qed.

Lemma strip_prefix_of_digit (c : ascii) (cs : list ascii) (pats : list (list ascii)) :
  is_dec_digit c = true -> forallb starts_non_digit pats = true ->
  strip_prefix_of (c :: cs) pats = None.
Proof.
  intros Hc. induction pats as [|p ps IH]; simpl; intros H; [reflexivity|].
  apply andb_true_iff in H as [Hp Hps]. destruct p as [|h t]; [discriminate|].
  simpl. unfold list_ascii_eqb. rewrite bool_decide_eq_false_2; [apply IH, Hps|].
  intros [= Hch _]. subst h. simpl in Hp. rewrite Hc in Hp. discriminate.
Qed.

Lemma trim_left_digit (fuel : nat) (pats : list (list ascii)) (c : ascii) (cs : list ascii) :
  is_dec_digit c = true -> forallb starts_non_digit pats = true ->
  trim_left_spaces fuel pats (c :: cs) = c :: cs.
Proof.
  intros Hc Hp. destruct fuel; simpl; [reflexivity|].
  rewrite strip_prefix_of_digit by assumption. reflexivity.
Qed.

(** [strings.TrimSpace] keeps a text that starts and ends with a digit. *)
Lemma TrimSpace_digits (s : string) (c0 cn : ascii) (l1 l2 : list ascii) :
  list_ascii_of_string s = c0 :: l1 -> list_ascii_of_string s = l2 ++ [cn] ->
  is_dec_digit c0 = true -> is_dec_digit cn = true -> TrimSpace s = s.
Proof.
  intros H1 H2 Hc0 Hcn. unfold TrimSpace. rewrite H1.
  rewrite trim_left_digit by (auto; vm_compute; reflexivity).
  rewrite <- H1, H2, rev_unit.
  rewrite trim_left_digit by (auto; vm_compute; reflexivity).
  simpl. rewrite rev_involutive, <- H2. apply string_of_list_ascii_of_string.
Qed.

Lemma digit_not_sign (c : ascii) :
  is_dec_digit c = true -> Ascii.eqb c "-" = false /\ Ascii.eqb c "+" = false.
Proof.
  intros Hc. split; [destruct (Ascii.eqb_spec c "-") | destruct (Ascii.eqb_spec c "+")];
    subst; try reflexivity; vm_compute in Hc; discriminate.
Qed.

Lemma leadingInt_digits (cs : list ascii) (x : Z) :
  0 <= x -> forallb is_dec_digit cs = true -> decimal_value x cs <= 10 ^ 17 ->
  leadingInt_loop x cs = Some (decimal_value x cs, []).
Proof.
  revert x. induction cs as [|c cs IH]; intros x Hx Hd Hb; [reflexivity|].
  simpl in Hd. apply andb_true_iff in Hd as [Hc Hd].
  pose proof (digit_value_range c Hc).
  rewrite decimal_value_cons in *.
  pose proof (decimal_value_ge (x * 10 + digit_value c) cs ltac:(lia) Hd).
  change (10 ^ 17) with 100000000000000000 in Hb.
  simpl. rewrite Hc. simpl.
  replace (2 ^ 63 / 10) with 922337203685477580 by reflexivity.
  replace (2 ^ 63) with 9223372036854775808 by reflexivity.
  destruct (Z.gtb_spec x 922337203685477580); [lia|].
  destruct (Z.gtb_spec (x * 10 + digit_value c) 9223372036854775808); [lia|].
  apply IH; [lia | exact Hd | exact Hb].
Qed.

(** Package time's [atoi] on a decimal digit string. *)
Lemma time_atoi_segment (s : string) (v : Z) :
  nonneg_int_segment s v -> v <= 10 ^ 17 -> time_atoi (list_ascii_of_string s) = Some v.
Proof.
  intros Hs Hb. apply segment_chars in Hs as (Hne & Hd & Hv).
  unfold time_atoi.
  destruct (list_ascii_of_string s) as [|c cs] eqn:E; [contradiction|].
  pose proof Hd as Hc. simpl in Hc. apply andb_true_iff in Hc as [Hc _].
  destruct (digit_not_sign c Hc) as [-> ->].
  rewrite leadingInt_digits by (try exact Hd; lia). rewrite Hv.
  pose proof (decimal_value_ge 0 _ ltac:(lia) Hd).
  change (10 ^ 17) with 100000000000000000 in Hb.
  rewrite wrap64_id; [reflexivity|]. rewrite in_int_range_val. lia.
Qed.

(** The day, a slash, the month and a slash of the three layouts. *)
Lemma parse_chunks_day_month (sd sm : std_chunk) (dd mm : string) (d m : Z)
    (Y : list ascii) (st : date_fields) (layout' : list layout_elem) :
  (sd = stdDay \/ sd = stdZeroDay) -> (sm = stdNumMonth \/ sm = stdZeroMonth) ->
  nonneg_int_segment dd d -> (String.length dd = 1 \/ String.length dd = 2)%nat ->
  nonneg_int_segment mm m -> (String.length mm = 1 \/ String.length mm = 2)%nat ->
  1 <= m <= 12 ->
  parse_chunks (LayoutStd sd :: LayoutText ["/"%char] :: LayoutStd sm ::
                LayoutText ["/"%char] :: layout')
               (list_ascii_of_string dd ++ "/"%char :: list_ascii_of_string mm ++ "/"%char :: Y) st =
  if (match sd with stdZeroDay => true | _ => false end && (String.length dd =? 1))%nat
     || (match sm with stdZeroMonth => true | _ => false end && (String.length mm =? 1))%nat
  then Err ErrBad
  else parse_chunks layout' Y {| f_year := f_year st; f_month := m; f_day := d |}.
Proof.
  intros Hsd Hsm Hd Hdl Hm Hml Hmr.
  cbn [parse_chunks]. unfold parse_std at 1.
  destruct Hsd as [-> | ->]; rewrite (getnum_segment dd d _ _ Hd Hdl); simpl.
  - unfold parse_std.
    destruct Hsm as [-> | ->]; rewrite (getnum_segment mm m _ _ Hm Hml); simpl.
    + destruct (Z.leb_spec m 0); [lia|]. destruct (Z.ltb_spec 12 m); [lia|]. reflexivity.
    + destruct (String.length mm =? 1)%nat; [reflexivity|]. simpl.
      destruct (Z.leb_spec m 0); [lia|]. destruct (Z.ltb_spec 12 m); [lia|]. reflexivity.
  - destruct (String.length dd =? 1)%nat; [reflexivity|]. simpl.
    unfold parse_std.
    destruct Hsm as [-> | ->]; rewrite (getnum_segment mm m _ _ Hm Hml); simpl.
    + destruct (Z.leb_spec m 0); [lia|]. destruct (Z.ltb_spec 12 m); [lia|]. reflexivity.
    + destruct (String.length mm =? 1)%nat; [reflexivity|]. simpl.
      destruct (Z.leb_spec m 0); [lia|]. destruct (Z.ltb_spec 12 m); [lia|]. reflexivity.
Qed.

Lemma date_text_chars (dd mm yy : string) :
  list_ascii_of_string (dd ++ "/" ++ mm ++ "/" ++ yy)%string =
  list_ascii_of_string dd ++ "/"%char :: list_ascii_of_string mm ++ "/"%char ::
  list_ascii_of_string yy.
Proof. rewrite !list_ascii_of_string_app. reflexivity. Qed.

Lemma TrimSpace_date (dd mm yy : string) (d m y : Z) :
  nonneg_int_segment dd d -> nonneg_int_segment mm m -> nonneg_int_segment yy y ->
  TrimSpace (dd ++ "/" ++ mm ++ "/" ++ yy)%string = (dd ++ "/" ++ mm ++ "/" ++ yy)%string.
Proof.
  intros Hd _ Hy. apply segment_chars in Hd as (Hdn & Hdd & _).
  apply segment_chars in Hy as (Hyn & Hyd & _).
  destruct (list_ascii_of_string dd) as [|c0 l1] eqn:ED; [contradiction|].
  destruct (exists_last Hyn) as (l2 & cn & EY).
  rewrite EY in Hyd. rewrite forallb_app in Hyd. simpl in Hyd, Hdd.
  apply andb_true_iff in Hyd as [_ Hcn]. apply andb_true_iff in Hdd as [Hc0 _].
  rewrite andb_true_r in Hcn.
  apply (TrimSpace_digits _ c0 cn
           (l1 ++ "/"%char :: list_ascii_of_string mm ++ "/"%char :: list_ascii_of_string yy)
           (c0 :: l1 ++ "/"%char :: list_ascii_of_string mm ++ "/"%char :: l2));
    [rewrite date_text_chars, ED; reflexivity | | exact Hc0 | exact Hcn].
  rewrite date_text_chars, ED, EY. simpl. rewrite <- !app_assoc. simpl.
  rewrite <- !app_assoc. reflexivity.
Qed.

Lemma parse_chunks_long_year (Y : list ascii) (y : Z) (st : date_fields) :
  length Y = 4%nat -> isDigit0 Y = true -> time_atoi Y = Some y ->
  parse_chunks [LayoutStd stdLongYear] Y st =
  Ok {| f_year := y; f_month := f_month st; f_day := f_day st |}.
Proof.
  intros Hl Hd Ha. cbn [parse_chunks]. unfold parse_std.
  rewrite Hl, Hd. simpl. rewrite firstn_all2 by lia. rewrite Ha, skipn_all2 by lia.
  reflexivity.
Qed.

Lemma parse_chunks_short_year (Y : list ascii) (y : Z) (st : date_fields) :
  length Y = 2%nat -> time_atoi Y = Some y ->
  parse_chunks [LayoutStd stdYear] Y st =
  Ok {| f_year := if y >=? 69 then y + 1900 else y + 2000;
        f_month := f_month st; f_day := f_day st |}.
Proof.
  intros Hl Ha. cbn [parse_chunks]. unfold parse_std.
  rewrite Hl. simpl. rewrite firstn_all2 by lia. rewrite Ha, skipn_all2 by lia.
  reflexivity.
Qed.

(** A four-digit year leaves text over for the two-digit year chunk. *)
Lemma parse_chunks_short_year_long (Y : list ascii) (st : date_fields) :
  length Y = 4%nat -> exists e, parse_chunks [LayoutStd stdYear] Y st = Err e.
Proof.
  intros Hl. cbn [parse_chunks]. unfold parse_std. rewrite Hl. simpl.
  destruct (time_atoi (firstn 2 Y)); [|eauto].
  destruct (skipn 2 Y) eqn:E; [|eauto].
  apply (f_equal (@length ascii)) in E. rewrite length_skipn in E. simpl in E. lia.
Qed.

(** A two-digit year is too short for the four-digit year chunk. *)
Lemma parse_chunks_long_year_short (Y : list ascii) (st : date_fields) :
  length Y = 2%nat -> parse_chunks [LayoutStd stdLongYear] Y st = Err ErrBad.
Proof. intros Hl. cbn [parse_chunks]. unfold parse_std. rewrite Hl. reflexivity. Qed.

(** The end of [time.Parse] once the loop has set all three fields. *)
Lemma time_Parse_fields (layout : list layout_elem) (value : list ascii) (y m d : Z) :
  parse_chunks layout value {| f_year := 0; f_month := -1; f_day := -1 |} =
    Ok {| f_year := y; f_month := m; f_day := d |} ->
  1 <= m <= 12 -> 1 <= d <= daysIn m y ->
  time_Parse layout value = Ok {| Year := y; Month := m; Day := d |}.
Proof.
  intros H Hm Hd. unfold time_Parse. rewrite H. simpl.
  destruct (Z.ltb_spec m 0); [lia|]. destruct (Z.ltb_spec d 0); [lia|].
  destruct (Z.ltb_spec d 1); [lia|]. destruct (Z.gtb_spec d (daysIn m y)); [lia|].
  reflexivity.
Qed.

Lemma year_segment_facts (yy : string) (y : Z) :
  nonneg_int_segment yy y -> (String.length yy <= 4)%nat ->
  isDigit0 (list_ascii_of_string yy) = true /\ time_atoi (list_ascii_of_string yy) = Some y /\
  0 <= y < 10000.
Proof.
  intros Hy Hl. pose proof Hy as Hy'. apply segment_chars in Hy' as (Hn & Hd & Hv).
  pose proof (decimal_value_ge 0 _ ltac:(lia) Hd).
  pose proof (decimal_value_lt 0 _ ltac:(lia) Hd).
  rewrite length_list_ascii_of_string in *.
  assert (10 ^ Z.of_nat (String.length yy) <= 10 ^ 4) by (apply Z.pow_le_mono_r; lia).
  split; [|split].
  - destruct (list_ascii_of_string yy) as [|c l]; [contradiction|].
    simpl in Hd |- *. apply andb_true_iff in Hd as [Hc _]. exact Hc.
  - apply time_atoi_segment; [exact Hy|].
    change (10 ^ 17) with 100000000000000000. change (10 ^ 4) with 10000 in *. lia.
  - change (10 ^ 4) with 10000 in *. lia.
Qed.

(** parseEventDate, four-digit year: a text [d/m/yyyy] with a day and a month
    of one or two digits and a year of four digits, naming a date of the
    calendar, parses to exactly that date, whichever of the three layouts
    accepts it. *)
Theorem parseEventDate_four_digit_year (dd mm yyyy : string) (d m y : Z) :
  nonneg_int_segment dd d -> (String.length dd = 1 \/ String.length dd = 2)%nat ->
  nonneg_int_segment mm m -> (String.length mm = 1 \/ String.length mm = 2)%nat ->
  nonneg_int_segment yyyy y -> String.length yyyy = 4%nat ->
  1 <= m <= 12 -> 1 <= d <= daysIn m y ->
  parseEventDate (dd ++ "/" ++ mm ++ "/" ++ yyyy)%string =
  Ok {| Year := y; Month := m; Day := d |}.
Proof.
  intros Hd Hdl Hm Hml Hy Hyl Hmr Hdr.
  destruct (year_segment_facts yyyy y Hy ltac:(lia)) as (Hy0 & Hya & _).
  assert (HY : length (list_ascii_of_string yyyy) = 4%nat)
    by (rewrite length_list_ascii_of_string; exact Hyl).
  unfold parseEventDate. rewrite (TrimSpace_date dd mm yyyy d m y Hd Hm Hy), date_text_chars.
  assert (L3 : time_Parse layout_D_M_YYYY
                 (list_ascii_of_string dd ++ "/"%char :: list_ascii_of_string mm ++ "/"%char ::
                  list_ascii_of_string yyyy) = Ok {| Year := y; Month := m; Day := d |}).
  { apply time_Parse_fields; [|exact Hmr|exact Hdr]. unfold layout_D_M_YYYY.
    rewrite (parse_chunks_day_month _ _ dd mm d m) by auto. cbn -[parse_chunks].
    apply parse_chunks_long_year; assumption. }
  unfold time_Parse at 1. unfold layout_DD_MM_YYYY.
  rewrite (parse_chunks_day_month _ _ dd mm d m) by auto. cbn -[parse_chunks].
  destruct ((String.length dd =? 1)%nat || (String.length mm =? 1)%nat).
  - unfold time_Parse at 1. unfold layout_D_M_YY.
    rewrite (parse_chunks_day_month _ _ dd mm d m) by auto. cbn -[parse_chunks].
    destruct (parse_chunks_short_year_long (list_ascii_of_string yyyy)
                {| f_year := 0; f_month := m; f_day := d |} HY) as [e ->].
    exact L3.
  - rewrite (parse_chunks_long_year _ y) by assumption. simpl.
    destruct (Z.ltb_spec m 0); [lia|]. destruct (Z.ltb_spec d 0); [lia|].
    destruct (Z.ltb_spec d 1); [lia|]. destruct (Z.gtb_spec d (daysIn m y)); [lia|].
    reflexivity.
Qed.

(** parseEventDate, two-digit year: a text [d/m/yy] with a day and a month of
    one or two digits and a year of two digits parses through the layout
    [2/1/06]; the year is [1900 + yy] from [69] on and [2000 + yy] below. *)
Theorem parseEventDate_two_digit_year (dd mm yy : string) (d m y : Z) :
  nonneg_int_segment dd d -> (String.length dd = 1 \/ String.length dd = 2)%nat ->
  nonneg_int_segment mm m -> (String.length mm = 1 \/ String.length mm = 2)%nat ->
  nonneg_int_segment yy y -> String.length yy = 2%nat ->
  1 <= m <= 12 -> 1 <= d <= daysIn m (if y >=? 69 then y + 1900 else y + 2000) ->
  parseEventDate (dd ++ "/" ++ mm ++ "/" ++ yy)%string =
  Ok {| Year := if y >=? 69 then y + 1900 else y + 2000; Month := m; Day := d |}.
Proof.
  intros Hd Hdl Hm Hml Hy Hyl Hmr Hdr.
  destruct (year_segment_facts yy y Hy ltac:(lia)) as (Hy0 & Hya & _).
  assert (HY : length (list_ascii_of_string yy) = 2%nat)
    by (rewrite length_list_ascii_of_string; exact Hyl).
  unfold parseEventDate. rewrite (TrimSpace_date dd mm yy d m y Hd Hm Hy), date_text_chars.
  assert (L2 : time_Parse layout_D_M_YY
                 (list_ascii_of_string dd ++ "/"%char :: list_ascii_of_string mm ++ "/"%char ::
                  list_ascii_of_string yy) =
               Ok {| Year := if y >=? 69 then y + 1900 else y + 2000; Month := m; Day := d |}).
  { apply time_Parse_fields; [|exact Hmr|exact Hdr]. unfold layout_D_M_YY.
    rewrite (parse_chunks_day_month _ _ dd mm d m) by auto. cbn -[parse_chunks].
    apply parse_chunks_short_year; assumption. }
  unfold time_Parse at 1. unfold layout_DD_MM_YYYY.
  rewrite (parse_chunks_day_month _ _ dd mm d m) by auto. cbn -[parse_chunks].
  destruct ((String.length dd =? 1)%nat || (String.length mm =? 1)%nat);
    [|rewrite parse_chunks_long_year_short by exact HY]; rewrite L2; reflexivity.
Qed.

Lemma parseEventDate_four_digit_year_witness :
  parseEventDate "29/2/2024" = Ok {| Year := 2024; Month := 2; Day := 29 |}.
Proof.
  apply (parseEventDate_four_digit_year "29" "2" "2024" 29 2 2024);
    try (vm_compute; reflexivity); try (right; reflexivity); try (left; reflexivity);
    vm_compute; split; discriminate.
Defined.

Lemma parseEventDate_two_digit_year_witness :
  parseEventDate "15/10/68" = Ok {| Year := 2068; Month := 10; Day := 15 |} /\
  parseEventDate "7/3/99" = Ok {| Year := 1999; Month := 3; Day := 7 |}.
Proof.
  split.
  - apply (parseEventDate_two_digit_year "15" "10" "68" 15 10 68);
      try (vm_compute; reflexivity); try (right; reflexivity); try (left; reflexivity);
      vm_compute; split; discriminate.
  - apply (parseEventDate_two_digit_year "7" "3" "99" 7 3 99);
      try (vm_compute; reflexivity); try (right; reflexivity); try (left; reflexivity);
      vm_compute; split; discriminate.
Defined.

Lemma parse_std_month (std : std_chunk) (v v' : list ascii) (st st' : date_fields) :
  parse_std std v st = Ok (v', st') -> f_month st' = f_month st \/ 1 <= f_month st' <= 12.
Proof.
  unfold parse_std. intros H.
  destruct std.
  1,2: destruct (getnum v _) as [[x w]|]; [|discriminate]; injection H as _ <-; left; reflexivity.
  1,2: destruct (getnum v _) as [[x w]|]; [|discriminate];
       destruct (Z.leb_spec x 0); [discriminate|]; destruct (Z.ltb_spec 12 x); [discriminate|];
       injection H as _ <-; right; simpl; lia.
  - destruct (length v <? 2)%nat; [discriminate|].
    destruct (time_atoi (firstn 2 v)); [|discriminate]. injection H as _ <-. left; reflexivity.
  - destruct ((length v <? 4)%nat || negb (isDigit0 v)); [discriminate|].
    destruct (time_atoi (firstn 4 v)); [|discriminate]. injection H as _ <-. left; reflexivity.
Qed.

Lemma parse_chunks_month (layout : list layout_elem) (v : list ascii) (st st' : date_fields) :
  parse_chunks layout v st = Ok st' ->
  f_month st' = f_month st \/ 1 <= f_month st' <= 12.
Proof.
  revert v st. induction layout as [|[p|std] l IH]; intros v st H; simpl in H.
  - destruct v; [|discriminate]. injection H as <-. left; reflexivity.
  - destruct (skip v p); [|discriminate]. exact (IH _ _ H).
  - destruct (parse_std std v st) as [[w st1]|e] eqn:E; [|discriminate].
    apply parse_std_month in E. destruct (IH _ _ H); [|right; assumption].
    destruct E; [left; congruence | right; lia].
Qed.

Lemma time_Parse_valid (layout : list layout_elem) (value : list ascii) (dt : civil_date) :
  time_Parse layout value = Ok dt ->
  1 <= Month dt <= 12 /\ 1 <= Day dt <= daysIn (Month dt) (Year dt).
Proof.
  unfold time_Parse. intros H.
  destruct (parse_chunks layout value _) as [st|e] eqn:E; [|discriminate].
  apply parse_chunks_month in E. simpl in E.
  destruct (Z.ltb_spec (f_month st) 0) as [Hm|Hm];
    destruct (Z.ltb_spec (f_day st) 0) as [Hd|Hd];
    match type of H with
    | (if ?c then _ else _) = _ => destruct c eqn:C; [discriminate|]
    end;
    injection H as <-; simpl; apply orb_false_iff in C as [C1 C2];
    apply Z.ltb_ge in C1; rewrite Z.gtb_ltb in C2; apply Z.ltb_ge in C2; lia.
Qed.

(** parseEventDate, validity: every date it returns is a date of the
    calendar: the month is between 1 and 12 and the day between 1 and the
    number of days of that month in that year. *)
Theorem parseEventDate_valid (dateText : string) (dt : civil_date) :
  parseEventDate dateText = Ok dt ->
  1 <= Month dt <= 12 /\ 1 <= Day dt <= daysIn (Month dt) (Year dt).
Proof.
  unfold parseEventDate.
  destruct (time_Parse layout_DD_MM_YYYY _) eqn:E1;
    [intros [= <-]; exact (time_Parse_valid _ _ _ E1)|].
  destruct (time_Parse layout_D_M_YY _) eqn:E2;
    [intros [= <-]; exact (time_Parse_valid _ _ _ E2)|].
  apply time_Parse_valid.
Qed.

Lemma parseEventDate_valid_witness :
  parseEventDate " 31/12/1999 " = Ok {| Year := 1999; Month := 12; Day := 31 |} /\
  1 <= 12 <= 12 /\ 1 <= 31 <= daysIn 12 1999.
Proof.
  assert (H : parseEventDate " 31/12/1999 " = Ok {| Year := 1999; Month := 12; Day := 31 |})
    by (vm_compute; reflexivity).
  split; [exact H|]. exact (parseEventDate_valid _ _ H).
Defined.

Lemma strip_prefix_of_suffix (cs cs' : list ascii) (pats : list (list ascii)) :
  strip_prefix_of cs pats = Some cs' -> exists p, cs = p ++ cs'.
Proof.
  induction pats as [|q qs IH]; simpl; [discriminate|].
  destruct (list_ascii_eqb _ _); [|exact IH].
  intros [= <-]. exists (firstn (length q) cs). symmetry. apply firstn_skipn.
Qed.

Lemma trim_left_suffix (fuel : nat) (pats : list (list ascii)) (cs : list ascii) :
  exists p, cs = p ++ trim_left_spaces fuel pats cs.
Proof.
  revert cs. induction fuel as [|fuel IH]; intros cs; simpl; [exists []; reflexivity|].
  destruct (strip_prefix_of cs pats) as [cs'|] eqn:E; [|exists []; reflexivity].
  destruct (strip_prefix_of_suffix _ _ _ E) as [p ->].
  destruct (IH cs') as [p' Hp']. exists (p ++ p'). rewrite <- app_assoc, <- Hp'. reflexivity.
Qed.

(** [strings.TrimSpace] only removes bytes. *)
Lemma TrimSpace_In (s : string) (c : ascii) :
  In c (list_ascii_of_string (TrimSpace s)) -> In c (list_ascii_of_string s).
Proof.
  unfold TrimSpace. rewrite list_ascii_of_string_of_list_ascii. intros H.
  apply in_rev in H.
  match type of H with In c (trim_left_spaces ?f ?ps ?l) =>
    destruct (trim_left_suffix f ps l) as [p Hp] end.
  assert (H1 : In c (rev (trim_left_spaces (length (list_ascii_of_string s)) space_encodings
                            (list_ascii_of_string s))))
    by (rewrite Hp; apply in_or_app; right; exact H).
  apply in_rev in H1.
  destruct (trim_left_suffix (length (list_ascii_of_string s)) space_encodings
              (list_ascii_of_string s)) as [p2 Hp2].
  rewrite Hp2. apply in_or_app; right; exact H1.
Qed.

Lemma getnum_suffix (v v' : list ascii) (f : bool) (x : Z) :
  getnum v f = Some (x, v') -> exists p, v = p ++ v'.
Proof.
  unfold getnum. destruct v as [|c0 [|c1 r]]; [discriminate| |].
  - destruct (negb (is_dec_digit c0)); [discriminate|]. destruct f; [discriminate|].
    intros [= _ <-]. exists [c0]. reflexivity.
  - destruct (negb (is_dec_digit c0)); [discriminate|].
    destruct (is_dec_digit c1); [intros [= _ <-]; exists [c0; c1]; reflexivity|].
    destruct f; [discriminate|]. intros [= _ <-]. exists [c0]. reflexivity.
Qed.

(** A layout that starts with a day and a slash rejects a value without a
    slash. *)
Lemma parse_chunks_day_no_slash (sd : std_chunk) (layout' : list layout_elem)
    (v : list ascii) (st : date_fields) :
  (sd = stdDay \/ sd = stdZeroDay) -> ~ In "/"%char v ->
  parse_chunks (LayoutStd sd :: LayoutText ["/"%char] :: layout') v st = Err ErrBad.
Proof.
  intros Hsd Hv. cbn [parse_chunks].
  assert (Hp : forall f, match getnum v f with
                         | None => Err ErrBad
                         | Some (day, value') =>
                             Ok (value', {| f_year := f_year st; f_month := f_month st;
                                            f_day := day |})
                         end = parse_std sd v st ->
               match parse_std sd v st with
               | Ok (value', st') =>
                   match skip value' ["/"%char] with
                   | Some value'' => parse_chunks layout' value'' st'
                   | None => Err ErrBad
                   end
               | Err e => Err e
               end = Err ErrBad).
  { intros f <-. destruct (getnum v f) as [[x w]|] eqn:E; [|reflexivity].
    destruct (getnum_suffix _ _ _ _ E) as [p ->].
    destruct w as [|c w]; [reflexivity|].
    unfold skip. simpl.
    destruct (Ascii.eqb_spec c "/"); [|reflexivity].
    subst c. exfalso. apply Hv, in_or_app. right. left. reflexivity. }
  destruct Hsd as [-> | ->]; apply (Hp _ eq_refl).
Qed.

(** parseEventDate, no slash: a date text without a ['/'] fails with the
    error of the last layout, a value that does not match it, and the event
    gets the zero time. *)
Theorem parseEventDate_no_slash (dateText : string) :
  ~ In "/"%char (list_ascii_of_string dateText) ->
  parseEventDate dateText = Err ErrBad /\ event_date dateText = zero_time.
Proof.
  intros H.
  assert (H' : ~ In "/"%char (list_ascii_of_string (TrimSpace dateText)))
    by (intros Hin; apply H, TrimSpace_In, Hin).
  assert (E : parseEventDate dateText = Err ErrBad).
  { unfold parseEventDate, time_Parse, layout_DD_MM_YYYY, layout_D_M_YY, layout_D_M_YYYY.
    rewrite !parse_chunks_day_no_slash by auto. reflexivity. }
  split; [exact E|]. unfold event_date. rewrite E. reflexivity.
Qed.

Lemma parseEventDate_no_slash_witness :
  parseEventDate "Saturday 6 January 2024" = Err ErrBad /\
  event_date "Saturday 6 January 2024" = zero_time.
Proof.
  apply parseEventDate_no_slash. vm_compute. intros H.
  repeat (destruct H as [H|H]; [discriminate|]). exact H.
Defined.

(** ** GetTopParticipants *)

Lemma sql_limit_sublist {A} (limit : Z) (l : list A) : sql_limit limit l `sublist_of` l.
Proof. unfold sql_limit. destruct (limit <? 0); [reflexivity|apply sublist_take]. Qed.

Lemma sublist_map {A B} (f : A -> B) (l1 l2 : list A) :
  l1 `sublist_of` l2 -> map f l1 `sublist_of` map f l2.
Proof. induction 1; simpl; constructor; assumption. Qed.

Lemma StronglySorted_sublist {A} (R : relation A) (l1 l2 : list A) :
  l1 `sublist_of` l2 -> StronglySorted R l2 -> StronglySorted R l1.
Proof.
  induction 1 as [|x l1 l2 Hs IH|x l1 l2 Hs IH]; intros H; [exact H| |].
  - apply StronglySorted_inv in H as [H1 H2]. constructor; [exact (IH H1)|].
    rewrite Forall_forall in *. intros y Hy. apply H2.
    eapply elem_of_sublist; [exact Hy|exact Hs].
  - apply StronglySorted_inv in H as [H1 _]. exact (IH H1).
Qed.

Lemma StronglySorted_map_rel {A B} (R1 : relation A) (R2 : relation B) (f : A -> B) l :
  (forall x y, R1 x y -> R2 (f x) (f y)) -> StronglySorted R1 l -> StronglySorted R2 (map f l).
Proof.
  intros Hf. induction 1 as [|x l Hl IH Hx]; simpl; constructor; [exact IH|].
  apply Forall_map. eapply Forall_impl; [exact Hx|]. intros y. apply Hf.
Qed.

Lemma run_count_ge_trans : Transitive run_count_ge.
Proof. intros a b c. unfold run_count_ge. lia. Qed.

Lemma run_count_ge_total : Total run_count_ge.
Proof. intros a b. unfold run_count_ge. lia. Qed.

Lemma count_known_names (n : string) (J : list result_row) :
  n <> "Unknown"%string ->
  length (List.filter (String.eqb n)
            (map r_name (List.filter (fun r => negb (String.eqb (r_name r) "Unknown")) J))) =
  length (List.filter (fun r => String.eqb (r_name r) n) J).
Proof.
  intros Hn. induction J as [|r J IH]; [reflexivity|]. simpl.
  destruct (String.eqb_spec (r_name r) "Unknown") as [E|E];
    destruct (String.eqb_spec (r_name r) n) as [E'|E']; simpl.
  - congruence.
  - exact IH.
  - subst n. rewrite String.eqb_refl. simpl. f_equal. exact IH.
  - destruct (String.eqb_spec n (r_name r)); [congruence|]. exact IH.
Qed.

Lemma In_name_counts_iff (names : list string) (p : string * Z) :
  In p (name_counts names) <->
  In p.1 names /\ p.2 = Z.of_nat (length (List.filter (String.eqb p.1) names)).
Proof.
  unfold name_counts. rewrite in_map_iff. split.
  - intros (n & <- & Hn). simpl. split; [|reflexivity].
    rewrite <- list_elem_of_In, elem_of_remove_dups, list_elem_of_In in Hn. exact Hn.
  - destruct p as [n c]. simpl. intros [Hn ->]. exists n. split; [reflexivity|].
    apply list_elem_of_In, elem_of_remove_dups, list_elem_of_In, Hn.
Qed.

Lemma map_fst_name_counts (names : list string) :
  map fst (name_counts names) = remove_dups names.
Proof. unfold name_counts. rewrite map_map. simpl. apply map_id. Qed.

(** GetTopParticipants, ranking: the list names each runner at most once,
    in non-increasing order of run count, has at most [limit] entries when
    [limit] is non-negative, and never lists "Unknown"; the count of each
    entry is the number of results of that runner at the location (at least
    one). With a negative limit every runner of the location other than
    "Unknown" is listed. *)
Theorem GetTopParticipants_ranking (d : db) (locationID limit : Z) :
  let top := GetTopParticipants d locationID limit in
  NoDup (map RunnerStat.Name top) /\
  StronglySorted (fun a b => RunnerStat.TotalRuns b <= RunnerStat.TotalRuns a) top /\
  (0 <= limit -> (length top <= Z.to_nat limit)%nat) /\
  (forall s, In s top ->
     RunnerStat.Name s <> "Unknown"%string /\
     RunnerStat.TotalRuns s =
       Z.of_nat (length (List.filter (fun r => String.eqb (r_name r) (RunnerStat.Name s))
                                     (joined_results d locationID))) /\
     1 <= RunnerStat.TotalRuns s) /\
  (limit < 0 -> forall r, In r (joined_results d locationID) -> r_name r <> "Unknown"%string ->
     exists s, In s top /\ RunnerStat.Name s = r_name r).
Proof.
  cbv zeta. unfold GetTopParticipants.
  set (J := joined_results d locationID).
  set (names := map r_name (List.filter (fun r => negb (String.eqb (r_name r) "Unknown")) J)).
  set (P := merge_sort run_count_ge (name_counts names)).
  set (mk := fun p : string * Z => {| RunnerStat.Name := p.1; RunnerStat.TotalRuns := p.2 |}).
  assert (HP : P ≡ₚ name_counts names) by apply merge_sort_Permutation.
  assert (HS : sql_limit limit P `sublist_of` P) by apply sql_limit_sublist.
  assert (Hmem : forall p, In p (sql_limit limit P) -> In p (name_counts names)).
  { intros p Hp. apply (Permutation_in _ HP), list_elem_of_In.
    eapply elem_of_sublist; [apply list_elem_of_In, Hp|exact HS]. }
  split; [|split; [|split; [|split]]].
  - rewrite map_map. simpl. apply (sublist_NoDup _ (map fst P)); [|apply sublist_map, HS].
    apply NoDup_ListNoDup, (Permutation_NoDup (Permutation_sym (Permutation_map fst HP))).
    rewrite map_fst_name_counts. apply NoDup_ListNoDup, NoDup_remove_dups.
  - apply (StronglySorted_map_rel run_count_ge); [unfold run_count_ge; simpl; auto|].
    apply (StronglySorted_sublist _ _ _ HS).
    apply (@StronglySorted_merge_sort _ run_count_ge _ run_count_ge_trans run_count_ge_total).
  - intros Hl. rewrite length_map. unfold sql_limit.
    destruct (Z.ltb_spec limit 0); [lia|]. rewrite length_take. lia.
  - intros s (p & <- & Hp)%in_map_iff. simpl.
    apply Hmem, In_name_counts_iff in Hp as [Hn Hc].
    assert (Hk : p.1 <> "Unknown"%string).
    { unfold names in Hn. apply in_map_iff in Hn as (r & <- & Hr).
      apply filter_In in Hr as [_ Hr]. destruct (String.eqb_spec (r_name r) "Unknown");
        [discriminate|assumption]. }
    rewrite Hc. subst names. rewrite count_known_names by exact Hk.
    split; [exact Hk|split; [reflexivity|]].
    apply in_map_iff in Hn as (r & Hr1 & Hr). apply filter_In in Hr as [Hr _].
    destruct (List.filter (fun r0 => String.eqb (r_name r0) p.1) J) eqn:E; [|simpl; lia].
    exfalso. assert (Hin : In r (List.filter (fun r0 => String.eqb (r_name r0) p.1) J))
      by (apply filter_In; split; [exact Hr|apply String.eqb_eq, Hr1]).
    rewrite E in Hin. exact Hin.
  - intros Hl r Hr Hk. unfold sql_limit. destruct (Z.ltb_spec limit 0); [|lia].
    exists (mk (r_name r, Z.of_nat (length (List.filter (String.eqb (r_name r)) names)))).
    split; [|reflexivity]. apply in_map.
    apply (Permutation_in _ (Permutation_sym HP)), In_name_counts_iff. simpl.
    split; [|reflexivity]. apply in_map, filter_In. split; [exact Hr|].
    destruct (String.eqb_spec (r_name r) "Unknown"); [contradiction|reflexivity].
Qed.

Lemma GetTopParticipants_ranking_witness :
  GetTopParticipants fixture_db 1 1 =
    [{| RunnerStat.Name := "Runner A"; RunnerStat.TotalRuns := 2 |}] /\
  (length (GetTopParticipants fixture_db 1 1) <= Z.to_nat 1)%nat.
Proof.
  split; [vm_compute; reflexivity|].
  exact (proj1 (proj2 (proj2 (GetTopParticipants_ranking fixture_db 1 1))) ltac:(lia)).
Defined.

(** ** The ingest loop over several iterations *)

(** Ingest loop, event numbers: while the loop runs, the event number it
    asks for next is the starting number plus the number of iterations that
    fetched and stored an event, wrapped around to Go's [int] as [eventID++]
    does, and exactly that sum while it stays within Go's [int]; a failed
    fetch or a failed [StoreEvent] retries the same number. The error
    counter stays below [maxConsecutiveErrors]. *)
Theorem run_loop_event_number (s0 s : loop_state) (inputs : list (fetch_outcome * bool)) :
  0 <= consecutiveErrors s0 < maxConsecutiveErrors ->
  in_int_range (eventID s0) ->
  run_loop s0 inputs = LoopRunning s ->
  eventID s = wrap64 (eventID s0 + Z.of_nat (stored_events inputs)) /\
  (eventID s0 + Z.of_nat (stored_events inputs) <= int_max ->
   eventID s = eventID s0 + Z.of_nat (stored_events inputs)) /\
  0 <= consecutiveErrors s < maxConsecutiveErrors.
Proof.
  intros Hc0 Hr0 Hrun0.
  assert (Hgen : eventID s = wrap64 (eventID s0 + Z.of_nat (stored_events inputs)) /\
                 0 <= consecutiveErrors s < maxConsecutiveErrors).
  { clear -Hc0 Hr0 Hrun0. unfold stored_events. revert s0 Hc0 Hr0 Hrun0.
    induction inputs as [|[f ok] rest IH]; intros s0 He Hr Hrun.
    - simpl in Hrun. injection Hrun as <-. simpl. rewrite Z.add_0_r, wrap64_id by exact Hr.
      split; [reflexivity|exact He].
    - unfold maxConsecutiveErrors in *.
      assert (Fe : forall e, 0 <= e < 3 -> wrap64 (e + 1) = e + 1)
        by (intros e Hb; apply wrap64_id; rewrite in_int_range_val; lia).
      destruct f as [|code|]; [destruct ok| |]; simpl in Hrun |- *.
      + apply IH in Hrun as [H1 H2]; [|simpl; lia|apply wrap64_range].
        simpl in H1. split; [|exact H2].
        rewrite H1, wrap64_add_l, Nat2Z.inj_succ. f_equal. lia.
      + apply IH in Hrun as [H1 H2]; [|simpl; lia|exact Hr].
        simpl in H1. split; [exact H1|exact H2].
      + destruct (code =? 405).
        * apply IH in Hrun as [H1 H2]; [|lia|exact Hr]. split; [exact H1|exact H2].
        * destruct (code =? 425); [discriminate|].
          unfold fetch_error_step, maxConsecutiveErrors in Hrun. rewrite Fe in Hrun by lia.
          destruct (Z.geb_spec (consecutiveErrors s0 + 1) 3); [simpl in Hrun; discriminate|].
          apply IH in Hrun as [H1 H2]; [|simpl; lia|exact Hr].
          simpl in H1. split; [exact H1|exact H2].
      + unfold fetch_error_step, maxConsecutiveErrors in Hrun. rewrite Fe in Hrun by lia.
        destruct (Z.geb_spec (consecutiveErrors s0 + 1) 3); [simpl in Hrun; discriminate|].
        apply IH in Hrun as [H1 H2]; [|simpl; lia|exact Hr].
        simpl in H1. split; [exact H1|exact H2]. }
  destruct Hgen as [H1 H2]. split; [exact H1|]. split; [|exact H2].
  intros Hb. rewrite H1. apply wrap64_id. unfold in_int_range in *.
  pose proof (Zle_0_nat (stored_events inputs)). lia.
Qed.

Lemma fetch_error_step_counts (s : loop_state) :
  0 <= consecutiveErrors s < maxConsecutiveErrors ->
  fetch_error_step s =
    let s' := {| eventID := eventID s; consecutiveErrors := consecutiveErrors s + 1 |} in
    if consecutiveErrors s + 1 =? maxConsecutiveErrors then BreakTooManyErrors s'
    else Continue s' waitBetweenRequests.
Proof.
  unfold maxConsecutiveErrors. intros Hc. unfold fetch_error_step.
  rewrite wrap64_id by (rewrite in_int_range_val; lia). unfold maxConsecutiveErrors.
  destruct (Z.geb_spec (consecutiveErrors s + 1) 3), (Z.eqb_spec (consecutiveErrors s + 1) 3);
    first [reflexivity | lia].
Qed.

(** Ingest loop, stopping on errors: from any running state, a sequence of
    failed fetches in which at least [maxConsecutiveErrors] minus the
    current count are counted errors (any error but a 405 or a 425
    [HTTPError]) ends the loop with [break], at the same event number and
    with the counter at [maxConsecutiveErrors]; the 405 responses in between
    neither count nor reset the counter. *)
Theorem run_loop_breaks_on_errors (s0 : loop_state) (inputs : list (fetch_outcome * bool)) :
  0 <= consecutiveErrors s0 < maxConsecutiveErrors ->
  Forall (fun p => counted_error p.1 = true \/ p.1 = FetchHTTPError 405) inputs ->
  maxConsecutiveErrors - consecutiveErrors s0 <=
    Z.of_nat (length (List.filter (fun p => counted_error p.1) inputs)) ->
  run_loop s0 inputs =
    LoopStopped (BreakTooManyErrors {| eventID := eventID s0;
                                       consecutiveErrors := maxConsecutiveErrors |}).
Proof.
  revert s0. induction inputs as [|[f ok] rest IH]; intros s0 He Hf Hn.
  - simpl in Hn. lia.
  - apply Forall_cons in Hf as [Hp Hf]. simpl in Hp.
    cbn [List.filter fst] in Hn.
    destruct (counted_error f) eqn:Ec.
    + assert (Herr : run_loop s0 ((f, ok) :: rest) =
                     match fetch_error_step s0 with
                     | Continue s' _ => run_loop s' rest
                     | a => LoopStopped a
                     end).
      { destruct f as [|code|]; simpl in Ec |- *; [discriminate| |reflexivity].
        apply andb_true_iff in Ec as [H1 H2]. apply negb_true_iff in H1, H2.
        rewrite H1, H2. reflexivity. }
      rewrite Herr, fetch_error_step_counts by exact He. cbv zeta.
      simpl length in Hn.
      destruct (Z.eqb_spec (consecutiveErrors s0 + 1) maxConsecutiveErrors) as [E|E].
      * rewrite E. reflexivity.
      * apply (IH {| eventID := eventID s0; consecutiveErrors := consecutiveErrors s0 + 1 |});
          simpl; [|exact Hf|]; unfold maxConsecutiveErrors in *; lia.
    + destruct Hp as [Hp|Hp]; [discriminate|]. subst f. simpl.
      apply IH; assumption.
Qed.

Lemma run_loop_event_number_witness :
  run_loop {| eventID := 5; consecutiveErrors := 0 |} sample_iterations =
    LoopRunning {| eventID := 7; consecutiveErrors := 0 |} /\
  7 = 5 + Z.of_nat (stored_events sample_iterations) /\
  run_loop {| eventID := int_max; consecutiveErrors := 0 |} sample_iterations =
    LoopRunning {| eventID := int_min + 1; consecutiveErrors := 0 |} /\
  int_min + 1 = wrap64 (int_max + Z.of_nat (stored_events sample_iterations)).
Proof.
  assert (H : run_loop {| eventID := 5; consecutiveErrors := 0 |} sample_iterations =
              LoopRunning {| eventID := 7; consecutiveErrors := 0 |}) by reflexivity.
  assert (H' : run_loop {| eventID := int_max; consecutiveErrors := 0 |} sample_iterations =
               LoopRunning {| eventID := int_min + 1; consecutiveErrors := 0 |})
    by (vm_compute; reflexivity).
  split; [exact H|]. split.
  - exact (proj1 (proj2 (run_loop_event_number {| eventID := 5; consecutiveErrors := 0 |}
                  {| eventID := 7; consecutiveErrors := 0 |} sample_iterations
                  ltac:(unfold maxConsecutiveErrors; simpl; lia)
                  ltac:(vm_compute; split; congruence) H)) ltac:(vm_compute; congruence)).
  - split; [exact H'|].
    exact (proj1 (run_loop_event_number {| eventID := int_max; consecutiveErrors := 0 |}
                  {| eventID := int_min + 1; consecutiveErrors := 0 |} sample_iterations
                  ltac:(unfold maxConsecutiveErrors; simpl; lia)
                  ltac:(vm_compute; split; congruence) H')).
Defined.

Lemma run_loop_breaks_on_errors_witness :
  run_loop {| eventID := 9; consecutiveErrors := 1 |}
    [(FetchHTTPError 500, true); (FetchHTTPError 405, true); (FetchOtherError, false);
     (FetchOtherError, true)] =
  LoopStopped (BreakTooManyErrors {| eventID := 9; consecutiveErrors := 3 |}).
Proof.
  apply (run_loop_breaks_on_errors {| eventID := 9; consecutiveErrors := 1 |});
    [unfold maxConsecutiveErrors; simpl; lia | | vm_compute; congruence].
  repeat (constructor; [simpl; first [left; reflexivity | right; reflexivity] |]).
  constructor.
Defined.

(** ** The location of parseAndStoreResults *)

Lemma find_app_single {A} (f : A -> bool) (l : list A) (x : A) :
  List.find f (l ++ [x]) =
  match List.find f l with Some y => Some y | None => if f x then Some x else None end.
Proof.
  induction l as [|y l IH]; simpl; [destruct (f x); reflexivity|].
  destruct (f y); [reflexivity|exact IH].
Qed.

Lemma existsb_find {A} (f : A -> bool) (l : list A) :
  existsb f l = true -> exists x, List.find f l = Some x.
Proof.
  induction l as [|y l IH]; simpl; [discriminate|].
  destruct (f y); simpl; [eauto|exact IH].
Qed.

Lemma existsb_false_find {A} (f : A -> bool) (l : list A) :
  existsb f l = false -> List.find f l = None.
Proof.
  induction l as [|y l IH]; simpl; [reflexivity|].
  destruct (f y); simpl; [discriminate|exact IH].
Qed.

(** Location of parseAndStoreResults: the insert-or-select always yields an
    id, and it is the id of the row with the slug afterwards. An existing
    row is reused and the database left as it was; otherwise one row is
    added with an id above the counter and above every existing id. Slugs
    stay unique, other slugs keep their rows, events and results are
    untouched, and doing it again gives the same id and changes nothing. *)
Theorem get_location_id_spec (d : db) (seq : Z) (urlSlug : string) :
  NoDup (map loc_slug (locations d)) ->
  exists d' seq' locationID,
    get_location_id d seq urlSlug = (d', seq', Some locationID) /\
    find_location d' urlSlug = Some locationID /\
    NoDup (map loc_slug (locations d')) /\
    (forall s, s <> urlSlug -> find_location d' s = find_location d s) /\
    events d' = events d /\ results d' = results d /\
    ((find_location d urlSlug = Some locationID /\ d' = d /\ seq' = seq) \/
     (find_location d urlSlug = None /\ seq < locationID /\
      Forall (fun l => loc_id l < locationID) (locations d))) /\
    get_location_id d' seq' urlSlug = (d', seq', Some locationID).
Proof.
  intros Hnd. unfold get_location_id, insert_location.
  set (f := fun l => String.eqb (loc_slug l) urlSlug).
  destruct (existsb f (locations d)) eqn:E.
  - destruct (existsb_find f _ E) as [l Hl].
    assert (Hfl : find_location d urlSlug = Some (loc_id l))
      by (unfold find_location; fold f; rewrite Hl; reflexivity).
    exists d, seq, (loc_id l). rewrite Hfl. rewrite E, Hfl.
    repeat split; auto.
  - set (id := next_rowid seq (map loc_id (locations d))).
    set (row := {| loc_id := id; loc_slug := urlSlug; loc_name := None; loc_country := "AUS" |}).
    set (d' := {| locations := locations d ++ [row]; events := events d;
                  results := results d; seq_events := seq_events d;
                  seq_results := seq_results d |}).
    assert (Hf' : find_location d' urlSlug = Some id).
    { unfold find_location. simpl. fold f. rewrite find_app_single, existsb_false_find by exact E.
      unfold f. simpl. rewrite String.eqb_refl. reflexivity. }
    assert (E' : existsb f (locations d') = true).
    { simpl. rewrite existsb_app. simpl. unfold f at 2. simpl.
      rewrite String.eqb_refl. apply orb_true_r. }
    exists d', id, id. split; [reflexivity|]. split; [exact Hf'|].
    split; [|split; [|split; [reflexivity|split; [reflexivity|split]]]].
    + simpl. rewrite map_app. simpl. apply NoDup_app. split; [exact Hnd|]. split.
      * intros x Hx Hx'. apply list_elem_of_singleton in Hx'. subst x.
        apply list_elem_of_In, in_map_iff in Hx as (l & Hl1 & Hl2).
        assert (existsb f (locations d) = true)
          by (apply existsb_exists; exists l; split; [exact Hl2|unfold f; apply String.eqb_eq, Hl1]).
        congruence.
      * apply NoDup_singleton.
    + intros s Hs. unfold find_location. simpl. rewrite find_app_single.
      destruct (List.find _ (locations d)); [reflexivity|].
      simpl. destruct (String.eqb_spec urlSlug s); [congruence|reflexivity].
    + right. split; [unfold find_location; fold f; rewrite existsb_false_find by exact E; reflexivity|].
      destruct (next_rowid_fresh seq (map loc_id (locations d))) as [H1 H2].
      split; [exact H1|]. apply Forall_forall. intros l Hl. apply H2.
      apply in_map, list_elem_of_In, Hl.
    + fold f. rewrite E', Hf'. reflexivity.
Qed.

Lemma get_location_id_spec_witness :
  NoDup (map loc_slug (locations fixture_db)) /\
  get_location_id fixture_db 2 "test-park-1" = (fixture_db, 2, Some 1) /\
  exists d' seq' locationID,
    get_location_id fixture_db 2 "test-park-3" = (d', seq', Some locationID) /\
    find_location d' "test-park-3" = Some locationID.
Proof.
  assert (H : NoDup (map loc_slug (locations fixture_db)))
    by (apply (bool_decide_eq_true_1 (NoDup (map loc_slug (locations fixture_db))));
        vm_compute; reflexivity).
  split; [exact H|]. split; [vm_compute; reflexivity|].
  destruct (get_location_id_spec fixture_db 2 "test-park-3" H) as (d' & s' & i & H1 & H2 & _).
  exists d', s', i. split; assumption.
Defined.

(** ** The categories of GetMedianTimesByAgeCategory *)

Lemma list_fmap_is_map {A B} (f : A -> B) (l : list A) : f <$> l = map f l.
Proof. induction l as [|x l IH]; simpl; [reflexivity|]. rewrite <- IH. reflexivity. Qed.

Lemma stats_le_total : Total stats_le.
Proof. intros a b. unfold stats_le. apply String.leb_total. Qed.

Lemma median_stats_ordered (median : list Z -> Z) (d : db) (locationID : Z) :
  let stats := median_stats median d locationID in
  NoDup (map Category stats) /\ Sorted stats_le stats /\
  (forall c, In c (map Category stats) <->
             c <> ""%string /\ category_times d locationID c <> []).
Proof.
  cbv zeta. split; [|split].
  - unfold median_stats.
    apply NoDup_ListNoDup.
    eapply Permutation_NoDup;
      [apply Permutation_map, Permutation_sym, merge_sort_Permutation|].
    rewrite map_map. simpl. apply NoDup_ListNoDup.
    rewrite <- list_fmap_is_map. apply NoDup_fst_map_to_list.
  - unfold median_stats. apply (@Sorted_merge_sort _ stats_le _ stats_le_total).
  - intros c. rewrite <- median_stats_categories, in_map_iff.
    split; intros (st & H1 & H2); eauto.
Qed.

(** GetMedianTimesByAgeCategory, categories: in both copies of reports.go
    the statistics come in increasing order of category, one per category,
    and the categories listed are exactly the non-empty age categories that
    have a result with a positive time at the location. *)
Theorem GetMedianTimes_categories (d : db) (locationID : Z) :
  (let stats := ReportsV1.GetMedianTimesByAgeCategory d locationID in
   NoDup (map Category stats) /\ Sorted stats_le stats /\
   (forall c, In c (map Category stats) <->
              c <> ""%string /\ category_times d locationID c <> [])) /\
  (let stats := ReportsV2.GetMedianTimesByAgeCategory d locationID in
   NoDup (map Category stats) /\ Sorted stats_le stats /\
   (forall c, In c (map Category stats) <->
              c <> ""%string /\ category_times d locationID c <> [])).
Proof. split; apply median_stats_ordered. Qed.
